(** * Contoso sales agent client (src/workshop/main.py)

    A shallow embedding of the command-line chat client: the module-level
    configuration, the agent bootstrapper [initialize], the tear-down
    [cleanup], the per-turn [post_message] and the interactive loop of
    [main], followed by the properties of the specification that concern
    them.

    Python [str] values are modelled as [string] (sequences of 8-bit
    characters); the builtin string methods used by the program
    ([str.replace], [str.lower], [in]) are defined on character lists.
    Calls that leave the program (remote service, database, file system,
    terminal) are recorded in a trace and answered by a [world]. *)

From Stdlib Require Import Ascii ZArith QArith_base.
From stdpp Require Import base decidable list strings pretty gmap.

(** ** Builtin string operations *)

Section ListStrings.
Context {A : Type} `{EqDecision A}.

(** [s.startswith(p)] *)
Fixpoint starts_with (p s : list A) : bool :=
  match p, s with
  | [], _ => true
  | a :: p', b :: s' => if decide (a = b) then starts_with p' s' else false
  | _ :: _, [] => false
  end.

(** [p in s] *)
Fixpoint contains (p s : list A) : bool :=
  starts_with p s ||
  match s with
  | [] => false
  | _ :: s' => contains p s'
  end.

(** [s.replace(old, new)] for a non-empty [old]: scan from the left, and
    at every position where [old] starts emit [new] and skip the matched
    characters ([skip] counts the characters of the current match that
    are still to be dropped). *)
Fixpoint replace_go (old new : list A) (skip : nat) (s : list A) : list A :=
  match s with
  | [] => []
  | c :: s' =>
      match skip with
      | S k => replace_go old new k s'
      | O =>
          if starts_with old s
          then new ++ replace_go old new (length old - 1) s'
          else c :: replace_go old new 0 s'
      end
  end.

(** [s.replace(old, new)]; with an empty [old] Python inserts [new]
    before every character and at the end. *)
Definition replace_all (old new s : list A) : list A :=
  match old with
  | [] => new ++ flat_map (fun c => c :: new) s
  | _ :: _ => replace_go old new 0 s
  end.

(** The graph of [replace_all old new] for a non-empty [old]. *)
Inductive replaced (old new : list A) : list A -> list A -> Prop :=
| replaced_nil : replaced old new [] []
| replaced_match rest r :
    replaced old new rest r ->
    replaced old new (old ++ rest) (new ++ r)
| replaced_keep c s r :
    starts_with old (c :: s) = false ->
    replaced old new s r ->
    replaced old new (c :: s) (c :: r).

(** An occurrence of [old] and an occurrence of [p] cannot share a
    character: the first character of [old] is not in the tail of [p],
    and [p] is prefix-incomparable with every non-empty suffix of [old]. *)
Definition no_overlap (p old : list A) : Prop :=
  (forall a old', old = a :: old' -> a ∉ tail p) /\
  (forall q u, old = q ++ u -> u <> [] ->
               starts_with p u = false /\ starts_with u p = false).

Fixpoint no_overlap_tails (p u : list A) : bool :=
  match u with
  | [] => true
  | _ :: u' =>
      negb (starts_with p u) && negb (starts_with u p) && no_overlap_tails p u'
  end.

Definition no_overlap_b (p old : list A) : bool :=
  match old with
  | [] => true
  | a :: _ => bool_decide (a ∉ tail p) && no_overlap_tails p old
  end.
End ListStrings.

Definition chars (s : string) : list ascii := String.list_ascii_of_string s.
Definition of_chars (l : list ascii) : string := String.string_of_list_ascii l.

(** [sub in s] *)
Definition str_contains (sub s : string) : bool := contains (chars sub) (chars s).

(** [s.replace(old, new)] *)
Definition str_replace (s old new : string) : string :=
  of_chars (replace_all (chars old) (chars new) (chars s)).

(** [c.lower()] on one character: the letters A-Z move to a-z; every
    other character of the 8-bit range is left as it is. *)
Definition ascii_lower (c : ascii) : ascii :=
  let n := Ascii.nat_of_ascii c in
  if (65 <=? n)%nat && (n <=? 90)%nat then Ascii.ascii_of_nat (n + 32) else c.

(** [s.lower()] *)
Definition str_lower (s : string) : string := of_chars (map ascii_lower (chars s)).

(** [not s] for a string: true exactly for the empty string. *)
Definition str_falsy (s : string) : bool :=
  match s with
  | EmptyString => true
  | String _ _ => false
  end.

(** ** Exceptions *)

(** The exception classes the program names or can meet, with
    [Derived] for any further subclass (the SDK's error classes, for
    instance). *)
Inductive pyclass : Type :=
| BaseException
| Exception
| KeyboardInterrupt
| SystemExit
| CancelledError
| AttributeError
| LookupError
| KeyError
| RuntimeError
| EOFError
| OSError
| FileNotFoundError
| Derived (name : string) (base : pyclass).

#[global] Instance pyclass_eq_dec : EqDecision pyclass.
Proof. solve_decision. Defined.

(** Method resolution order: the class followed by its ancestors. *)
Fixpoint mro (c : pyclass) : list pyclass :=
  c :: match c with
       | BaseException => []
       | Exception | KeyboardInterrupt | SystemExit | CancelledError =>
           [BaseException]
       | AttributeError | LookupError | RuntimeError | EOFError | OSError =>
           [Exception; BaseException]
       | KeyError => [LookupError; Exception; BaseException]
       | FileNotFoundError => [OSError; Exception; BaseException]
       | Derived _ base => mro base
       end.

Record exn : Type := Exn { exn_class : pyclass; exn_msg : string }.

(** [isinstance(e, cls)], the test an [except cls] clause performs. *)
Definition isinstance (e : exn) (cls : pyclass) : bool :=
  bool_decide (cls ∈ mro (exn_class e)).

(** [str(e)] *)
Definition py_str (e : exn) : string := exn_msg e.

Inductive outcome (A : Type) : Type :=
| Ok (a : A)
| Raise (e : exn).
Arguments Ok {A} a.
Arguments Raise {A} e.

(** ** Remote and local objects *)

Inductive tool : Type :=
| FunctionTool (functions : list string)
| CodeInterpreterTool
| FileSearchTool (vector_store_ids : list string).

Record vector_store_t : Type := VectorStore {
  vs_id : string;
  vs_name : string;
  vs_status : string;
  vs_file_counts : option nat   (* [file_counts.total], when [file_counts] is set *)
}.

Record agent_t : Type := Agent {
  agent_id : string;
  agent_tools : option (list string);     (* tool type names, when the attribute exists *)
  agent_tool_resources : option string    (* its rendering, when present and truthy *)
}.

Record thread_t : Type := Thread { thread_id : string }.

Record date : Type := Date { year : nat; month : nat; day : nat }.

Inductive pyvalue : Type :=
| VNone
| VStr (s : string)
| VInt (z : Z)
| VFloat (q : Q)
| VToolSet (tools : list tool).

(** Keyword arguments of a call, in the order they are written. *)
Definition kwargs : Type := list (string * pyvalue).

Fixpoint kwarg (name : string) (kw : kwargs) : option pyvalue :=
  match kw with
  | [] => None
  | (k, v) :: kw' => if String.eqb k name then Some v else kwarg name kw'
  end.

(** ** Effects: the trace of calls and the world that answers them *)

Inductive event : Type :=
| EPrint (text : string)
| ELogError (msg : string)
| ELogPurple (msg : string)
| EInput (prompt : string)
| ECreateVectorStore (files : list string) (name : string)
| EDbConnect
| EDbGetInfo
| EReadFile (path : string)
| EEnableAutoFunctionCalls (functions : list string)
| ECreateAgent (kw : kwargs)
| EThreadsCreate
| EMessagesCreate (thread role content : string)
| ERunsStream (thread agent : string)
| EUntilDone
| EThreadsDelete (thread : string)
| EAgentsDelete (agent : string)
| EDbClose
| EClientClose.

(** What lies outside main.py. The steps of the bootstrapper run at most
    once each, so their answers are fixed; the calls of the conversation
    and of the tear-down are answered from the history of calls so far. *)
Record world : Type := World {
  environ : gmap string string;      (* [os.environ] after [load_dotenv()] *)
  tc_GREEN : string;
  tc_RESET : string;
  today : date;                      (* [date.today()] *)
  module_dir : string;               (* [Path(__file__).resolve().parent] *)
  is_file : string -> bool;
  read_text : string -> outcome string;
  create_vector_store : outcome vector_store_t;
  db_connect : outcome bool;         (* [true]: [sales_data.conn] is set *)
  db_info : outcome string;
  enable_auto_function_calls : outcome unit;
  create_agent : kwargs -> outcome agent_t;
  threads_create : outcome thread_t;
  messages_create : list event -> string -> string -> outcome unit;
  runs_stream : list event -> string -> string -> outcome unit;
  until_done : list event -> outcome unit;
  threads_delete : list event -> string -> outcome unit;
  agents_delete : list event -> string -> outcome unit;
  db_close : list event -> outcome unit;
  client_close : list event -> outcome unit
}.

(** The module-level mutable objects and the trace. *)
Record state : Type := State {
  toolset : list tool;
  vector_store : option vector_store_t;
  conn : bool;                       (* [sales_data.conn is not None] *)
  trace : list event
}.

Definition initial_state : state :=
  {| toolset := []; vector_store := None; conn := false; trace := [] |}.

Definition M (A : Type) : Type := state -> state * outcome A.

Definition ret {A} (a : A) : M A := fun st => (st, Ok a).

Definition bind {A B} (m : M A) (k : A -> M B) : M B :=
  fun st =>
    match m st with
    | (st', Ok a) => k a st'
    | (st', Raise e) => (st', Raise e)
    end.

Definition raise {A} (e : exn) : M A := fun st => (st, Raise e).

Definition record (ev : event) (st : state) : state :=
  {| toolset := toolset st; vector_store := vector_store st;
     conn := conn st; trace := trace st ++ [ev] |}.

Definition emit (ev : event) : M unit := fun st => (record ev st, Ok tt).

(** A call that leaves the program: it is recorded, and answered from the
    history before it. *)
Definition call {A} (ev : event) (answer : list event -> outcome A) : M A :=
  fun st => (record ev st, answer (trace st)).

(** [try: body except cls as e: handler(e)] *)
Definition try_except {A} (cls : pyclass) (body : M A) (handler : exn -> M A) : M A :=
  fun st =>
    match body st with
    | (st', Ok a) => (st', Ok a)
    | (st', Raise e) =>
        if isinstance e cls then handler e st' else (st', Raise e)
    end.

(** [try: body finally: fin] *)
Definition try_finally {A} (body : M A) (fin : M unit) : M A :=
  fun st =>
    match body st with
    | (st', r) =>
        match fin st' with
        | (st'', Ok _) => (st'', r)
        | (st'', Raise e) => (st'', Raise e)
        end
    end.

Declare Scope py_scope.
Delimit Scope py_scope with py.
Notation "'let*' x ':=' m 'in' k" := (bind m (fun x => k))
  (at level 10, x pattern, m at level 100, k at level 200) : py_scope.
Notation "m1 >> m2" := (bind m1 (fun _ => m2))
  (at level 100, m2 at level 200, right associativity) : py_scope.
Local Open Scope py_scope.

(** Writing to the terminal and to the log is taken to succeed. *)
Definition print (text : string) : M unit := emit (EPrint text).
Definition logger_error (msg : string) : M unit := emit (ELogError msg).
Definition log_msg_purple (msg : string) : M unit := emit (ELogPurple msg).

Definition toolset_add (t : tool) : M unit :=
  fun st =>
    ({| toolset := toolset st ++ [t]; vector_store := vector_store st;
        conn := conn st; trace := trace st |}, Ok tt).

Definition set_vector_store (vs : vector_store_t) : M unit :=
  fun st =>
    ({| toolset := toolset st; vector_store := Some vs;
        conn := conn st; trace := trace st |}, Ok tt).

Definition set_conn (b : bool) : M unit :=
  fun st =>
    ({| toolset := toolset st; vector_store := vector_store st;
        conn := b; trace := trace st |}, Ok tt).

Definition get {A} (f : state -> A) : M A := fun st => (st, Ok (f st)).

(** ** Dates: [strftime("%Y-%m-%d")] *)

(** A [date] has a year between 1 and 9999; the year is written with four
    digits, the month and the day with two. *)

Definition digit (n : nat) : ascii :=
  match n mod 10 with
  | 0 => "0" | 1 => "1" | 2 => "2" | 3 => "3" | 4 => "4"
  | 5 => "5" | 6 => "6" | 7 => "7" | 8 => "8" | _ => "9"
  end%char.

Definition pad2 (n : nat) : list ascii := [digit (n / 10); digit n].
Definition pad4 (n : nat) : list ascii :=
  [digit (n / 1000); digit (n / 100); digit (n / 10); digit n].

Definition strftime_Ymd_chars (d : date) : list ascii :=
  pad4 (year d) ++ "-"%char :: pad2 (month d) ++ "-"%char :: pad2 (day d).

Definition strftime_Ymd (d : date) : string := of_chars (strftime_Ymd_chars d).

Definition is_date_char (c : ascii) : bool :=
  let n := nat_of_ascii c in
  ((48 <=? n) && (n <=? 57)) || (n =? 45).

(** ** main.py: module level *)

Definition TENTS_DATA_SHEET_FILE : string := "datasheet/contoso-tents-datasheet.pdf".
Definition MAX_COMPLETION_TOKENS : Z := 4096.
Definition MAX_PROMPT_TOKENS : Z := 10240.
(** The float literals [0.1], kept as the decimal they are written as. *)
Definition TEMPERATURE : Q := 1 # 10.
Definition TOP_P : Q := 1 # 10.

(** Assigned three times in a row; the last assignment stands. *)
Definition INSTRUCTIONS_FILE : string := "instructions/instructions_file_search.txt".

Definition fetch_sales_data : string := "async_fetch_sales_data_using_sqlite_query".

(** [functions = AsyncFunctionTool({...})] *)
Definition functions : tool := FunctionTool [fetch_sales_data].

Record config : Type := Config {
  API_DEPLOYMENT_NAME : option string;   (* [os.getenv("MODEL_DEPLOYMENT_NAME")] *)
  PROJECT_ENDPOINT : string              (* [os.environ["PROJECT_ENDPOINT"]] *)
}.

(** [os.getenv(name)] and [os.getenv(name, default)] *)
Definition getenv (env : gmap string string) (name : string) : option string :=
  env !! name.
Definition getenv_default (env : gmap string string) (name fallback : string) : string :=
  default fallback (env !! name).

(** Lines 27-28: reading the configuration when the module is loaded;
    [os.environ[...]] raises [KeyError] for a missing name. *)
Definition module_init (env : gmap string string) : outcome config :=
  let deployment := getenv env "MODEL_DEPLOYMENT_NAME" in
  match env !! "PROJECT_ENDPOINT" with
  | None => Raise (Exn KeyError "'PROJECT_ENDPOINT'")
  | Some endpoint =>
      Ok {| API_DEPLOYMENT_NAME := deployment; PROJECT_ENDPOINT := endpoint |}
  end.

(** Line 92: the deployment-environment tag. *)
Definition deployment_environment (env : gmap string string) : string :=
  getenv_default env "ENVIRONMENT" "local".

(** ** main.py: functions *)

Definition nat_str (n : nat) : string := pretty n.

Definition add_agent_tools (w : world) : M unit :=
  toolset_add functions >>
  toolset_add CodeInterpreterTool >>
  let* vs := call (ECreateVectorStore [TENTS_DATA_SHEET_FILE]
                     "Contoso Product Information Vector Store")
                  (fun _ => create_vector_store w) in
  set_vector_store vs >>
  print ("Vector Store ID: " +:+ vs_id vs) >>
  print ("Vector Store Name: " +:+ vs_name vs) >>
  print ("Vector Store Status: " +:+ vs_status vs) >>
  print ("File Count: " +:+ nat_str (default 0 (vs_file_counts vs))) >>
  toolset_add (FileSearchTool [vs_id vs]) >>
  print ("Added FileSearchTool with vector store: " +:+ vs_id vs).

(** [base_dir.joinpath(INSTRUCTIONS_FILE)] for the relative file name. *)
Definition instructions_path (w : world) : string :=
  module_dir w +:+ "/" +:+ INSTRUCTIONS_FILE.

(** The two placeholder tokens of the instructions template. *)
Definition schema_placeholder : string := "{database_schema_string}".
Definition date_placeholder : string := "{current_date}".

(** Lines 108-109: the two placeholder substitutions, in this order. *)
Definition render_instructions (template schema : string) (d : date) : string :=
  let instructions := str_replace template schema_placeholder schema in
  str_replace instructions date_placeholder (strftime_Ymd d).

(** Both placeholders open with a brace, close with a brace and hold no
    character of a date. *)
Definition is_placeholder (P : list ascii) : Prop :=
  (forall a o, P = a :: o -> a = "{"%char) /\
  (forall o z, P = o ++ [z] -> z = "}"%char) /\
  P <> [] /\
  Forall (fun c => is_date_char c = false) P.

(** A schema string without braces that is no fragment of a placeholder. *)
Definition plain_schema (s : string) : Prop :=
  str_contains "{" s = false /\
  str_contains "}" s = false /\
  str_contains s schema_placeholder = false /\
  str_contains s date_placeholder = false.

Definition plain_schema_b (s : string) : bool :=
  negb (str_contains "{" s) && negb (str_contains "}" s) &&
  negb (str_contains s schema_placeholder) && negb (str_contains s date_placeholder).

Definition opt_str (o : option string) : pyvalue :=
  match o with
  | Some s => VStr s
  | None => VNone
  end.

(** The keyword arguments of the [create_agent] call (lines 118-125). *)
Definition create_agent_kwargs (cfg : config) (instructions : string)
    (ts : list tool) : kwargs :=
  [ ("model", opt_str (API_DEPLOYMENT_NAME cfg));
    ("name", VStr "Contoso Sales AI Agent");
    ("instructions", VStr instructions);
    ("toolset", VToolSet ts);
    ("temperature", VFloat TEMPERATURE) ].

(** The rendering of a list of strings, as [print] shows it. *)
Definition repr_list (l : list string) : string :=
  "[" +:+ String.concat ", " (map (fun s => "'" +:+ s +:+ "'") l) +:+ "]".

(** The body of the [try] block of [initialize] (lines 92-137). *)
Definition initialize_body (w : world) (cfg : config) (database_schema_string : string)
    : M (agent_t * thread_t) :=
  let env := deployment_environment (environ w) in
  let INSTRUCTIONS_FILE_PATH := instructions_path w in
  if negb (is_file w INSTRUCTIONS_FILE_PATH) then
    raise (Exn FileNotFoundError
             ("Instructions file not found: " +:+ INSTRUCTIONS_FILE_PATH))
  else
  let* c := get conn in
  if negb c then
    raise (Exn RuntimeError
             "Database connection unavailable. Check SQLite DB path and permissions.")
  else
  let* template := call (EReadFile INSTRUCTIONS_FILE_PATH)
                        (fun _ => read_text w INSTRUCTIONS_FILE_PATH) in
  let instructions := render_instructions template database_schema_string (today w) in
  print "Creating agent..." >>
  call (EEnableAutoFunctionCalls [fetch_sales_data])
       (fun _ => enable_auto_function_calls w) >>
  let* ts := get toolset in
  let kw := create_agent_kwargs cfg instructions ts in
  let* agent := call (ECreateAgent kw) (fun _ => create_agent w kw) in
  print ("Created agent, ID: " +:+ agent_id agent) >>
  print ("Agent tools: " +:+ repr_list (default [] (agent_tools agent))) >>
  match agent_tool_resources agent with
  | Some r => print ("Tool resources: " +:+ r)
  | None => ret tt
  end >>
  print "Creating thread..." >>
  let* thread := call EThreadsCreate (fun _ => threads_create w) in
  print ("Created thread, ID: " +:+ thread_id thread) >>
  ret (agent, thread).

(** The [except Exception as e] clause of [initialize] (lines 139-142). *)
Definition initialize_except {A} (e : exn) : M A :=
  logger_error ("An error occurred initializing the agent: " +:+ py_str e) >>
  logger_error "Please ensure the instructions file exists and the database is accessible." >>
  raise e.

Definition initialize (w : world) (cfg : config) : M (agent_t * thread_t) :=
  add_agent_tools w >>
  let* opened := call EDbConnect (fun _ => db_connect w) in
  set_conn opened >>
  let* database_schema_string := call EDbGetInfo (fun _ => db_info w) in
  try_except Exception
    (initialize_body w cfg database_schema_string)
    initialize_except.

(** Lines 148-151: the guarded deletion of the thread. *)
Definition delete_thread (w : world) (thread : thread_t) : M unit :=
  try_except AttributeError
    (call (EThreadsDelete (thread_id thread))
          (fun h => threads_delete w h (thread_id thread)))
    (fun _ => ret tt).

(** Lines 152-155: the guarded deletion of the agent. *)
Definition delete_agent (w : world) (agent : agent_t) : M unit :=
  try_except AttributeError
    (call (EAgentsDelete (agent_id agent))
          (fun h => agents_delete w h (agent_id agent)))
    (fun _ => ret tt).

Definition cleanup (w : world) (agent : agent_t) (thread : thread_t) : M unit :=
  delete_thread w thread >>
  delete_agent w agent >>
  call EDbClose (db_close w) >>
  call EClientClose (client_close w).

(** The body of the [try] block of [post_message] (lines 164-178). *)
Definition post_message_body (w : world) (tid content : string)
    (agent : agent_t) (thread : thread_t) : M unit :=
  call (EMessagesCreate tid "user" content)
       (fun h => messages_create w h tid content) >>
  call (ERunsStream (thread_id thread) (agent_id agent))
       (fun h => runs_stream w h (thread_id thread) (agent_id agent)) >>
  call EUntilDone (until_done w).

Definition post_message (w : world) (tid content : string)
    (agent : agent_t) (thread : thread_t) : M unit :=
  try_except Exception
    (post_message_body w tid content agent thread)
    (fun e => log_msg_purple ("An error occurred posting the message: " +:+ py_str e)).

Definition input_prompt (w : world) : string :=
  tc_GREEN w +:+ "Enter your query (type exit to finish): " +:+ tc_RESET w.

Definition newline : string := String "010"%char EmptyString.

(** The [while True] loop of [main] (lines 196-205) over the lines that
    standard input still holds; [input] raises [EOFError] once it is
    exhausted. *)
Fixpoint main_loop (w : world) (agent : agent_t) (thread : thread_t)
    (stdin : list string) : M unit :=
  print newline >>
  emit (EInput (input_prompt w)) >>
  match stdin with
  | [] => raise (Exn EOFError "EOF when reading a line")
  | prompt :: rest =>
      if String.eqb (str_lower prompt) "exit" then ret tt
      else if str_falsy prompt then main_loop w agent thread rest
      else
        post_message w (thread_id thread) prompt agent thread >>
        main_loop w agent thread rest
  end.

(** The [except Exception as e] clause of [main] (lines 190-193); [None]
    stands for the early [return]. *)
Definition main_except {A} (e : exn) : M (option A) :=
  logger_error ("Initialization failed: " +:+ py_str e) >>
  print "Initialization failed. Check logs and configuration, then try again." >>
  ret None.

Definition main (w : world) (cfg : config) (stdin : list string) : M unit :=
  let* started :=
    try_except Exception
      (let* created := initialize w cfg in ret (Some created))
      main_except in
  match started with
  | None => ret tt
  | Some (agent, thread) =>
      try_finally (main_loop w agent thread stdin) (cleanup w agent thread)
  end.

(** Loading the module and running it as a script (lines 24-53, 210-213). *)
Definition run_program (w : world) (stdin : list string) : state * outcome unit :=
  match module_init (environ w) with
  | Raise e => (initial_state, Raise e)
  | Ok cfg =>
      (print "Starting async program..." >>
       main w cfg stdin >>
       print "Program finished.") initial_state
  end.

(** ** Describing runs *)

(** Every event that [m] adds to the trace satisfies [P]. *)
Definition emits {A} (P : event -> Prop) (m : M A) : Prop :=
  forall st, exists evs, trace (fst (m st)) = trace st ++ evs /\ Forall P evs.

(** [m] can return [a]. *)
Definition returns {A} (m : M A) (a : A) : Prop :=
  exists st, snd (m st) = Ok a.

(** What every agent-creation call of the program looks like. *)
Definition create_agent_call (w : world) (cfg : config) (ev : event) : Prop :=
  match ev with
  | ECreateAgent kw =>
      exists template schema ts,
        read_text w (instructions_path w) = Ok template /\
        db_info w = Ok schema /\
        kw = create_agent_kwargs cfg (render_instructions template schema (today w)) ts
  | _ => True
  end.

(** The keyword arguments every agent-creation call is made with. *)
Definition create_agent_keys (ev : event) : Prop :=
  match ev with
  | ECreateAgent kw =>
      map fst kw = ["model"; "name"; "instructions"; "toolset"; "temperature"] /\
      kwarg "temperature" kw = Some (VFloat TEMPERATURE)
  | _ => True
  end.

(** The events of [initialize] up to the [try] block, when the vector
    store [vs] was built and the database answered, and the state then. *)
Definition prelude_events (vs : vector_store_t) : list event :=
  [ ECreateVectorStore [TENTS_DATA_SHEET_FILE] "Contoso Product Information Vector Store";
    EPrint ("Vector Store ID: " +:+ vs_id vs);
    EPrint ("Vector Store Name: " +:+ vs_name vs);
    EPrint ("Vector Store Status: " +:+ vs_status vs);
    EPrint ("File Count: " +:+ nat_str (default 0 (vs_file_counts vs)));
    EPrint ("Added FileSearchTool with vector store: " +:+ vs_id vs);
    EDbConnect;
    EDbGetInfo ].

Definition after_prelude (st : state) (vs : vector_store_t) (opened : bool) : state :=
  {| toolset := toolset st ++ [functions; CodeInterpreterTool; FileSearchTool [vs_id vs]];
     vector_store := Some vs;
     conn := opened;
     trace := trace st ++ prelude_events vs |}.

Definition extend (evs : list event) (st : state) : state :=
  {| toolset := toolset st; vector_store := vector_store st;
     conn := conn st; trace := trace st ++ evs |}.

Definition file_not_found (w : world) : exn :=
  Exn FileNotFoundError ("Instructions file not found: " +:+ instructions_path w).

(** Events of the conversation: prompts, agent creation, posted messages. *)
Definition is_conversation (ev : event) : bool :=
  match ev with
  | EInput _ | ECreateAgent _ | EThreadsCreate
  | EMessagesCreate _ _ _ | ERunsStream _ _ | EUntilDone => true
  | _ => false
  end.

(** ** Templates as pieces *)

(** A template seen as a sequence of literal texts and placeholder slots. *)
Inductive piece : Type :=
| Text (text : string)
| SchemaSlot
| DateSlot.

Definition piece_source (p : piece) : string :=
  match p with
  | Text text => text
  | SchemaSlot => schema_placeholder
  | DateSlot => date_placeholder
  end.

(** What a piece stands for once the schema and the date are filled in. *)
Definition piece_filled (schema : string) (d : date) (p : piece) : string :=
  match p with
  | Text text => text
  | SchemaSlot => schema
  | DateSlot => strftime_Ymd d
  end.

Definition join (l : list string) : string := foldr String.append "" l.

Definition template_of (ps : list piece) : string := join (map piece_source ps).

Definition filled (ps : list piece) (schema : string) (d : date) : string :=
  join (map (piece_filled schema d) ps).

(** A literal text without an opening brace. *)
Definition plain_piece (p : piece) : bool :=
  match p with
  | Text text => negb (str_contains "{" text)
  | SchemaSlot | DateSlot => true
  end.

(** ** Describing the conversation *)

Definition is_cleanup (ev : event) : bool :=
  match ev with
  | EThreadsDelete _ | EAgentsDelete _ | EDbClose | EClientClose => true
  | _ => false
  end.

(** The contents of the messages posted, in order. *)
Definition posted (evs : list event) : list string :=
  flat_map (fun ev => match ev with
                      | EMessagesCreate _ _ content => [content]
                      | _ => []
                      end) evs.

Definition is_exit (line : string) : bool := String.eqb (str_lower line) "exit".

(** The lines read before the first exit line. *)
Fixpoint lines_until_exit (stdin : list string) : list string :=
  match stdin with
  | [] => []
  | line :: rest => if is_exit line then [] else line :: lines_until_exit rest
  end.

(** The lines that start a turn: those read before the exit line that
    are not empty. *)
Definition turns (stdin : list string) : list string :=
  filter (fun line => str_falsy line = false) (lines_until_exit stdin).

(** A world whose conversation calls fail with instances of [Exception]
    only. *)
Definition gentle (w : world) : Prop :=
  (forall h tid content e,
     messages_create w h tid content = Raise e -> isinstance e Exception = true) /\
  (forall h tid aid e,
     runs_stream w h tid aid = Raise e -> isinstance e Exception = true) /\
  (forall h e, until_done w h = Raise e -> isinstance e Exception = true).

(** An answer of a deletion call that [cleanup] goes on after. *)
Definition tolerated (o : outcome unit) : bool :=
  match o with
  | Ok _ => true
  | Raise e => isinstance e AttributeError
  end.

(** [m] leaves the toolset and the vector-store reference as they are. *)
Definition keeps_tools {A} (m : M A) : Prop :=
  forall st,
    toolset (fst (m st)) = toolset st /\
    vector_store (fst (m st)) = vector_store st.

(** The calls of a turn address the thread and the agent made at startup,
    and a posted message is a user message that is neither empty nor an
    exit line. *)
Definition turn_call (w : world) (ev : event) : Prop :=
  match ev with
  | EMessagesCreate tid role content =>
      threads_create w = Ok (Thread tid) /\
      role = "user" /\ content <> "" /\ is_exit content = false
  | ERunsStream tid aid =>
      threads_create w = Ok (Thread tid) /\
      exists kw agent, create_agent w kw = Ok agent /\ aid = agent_id agent
  | _ => True
  end.

(** ** Concrete worlds used in the examples *)

Definition demo_store : vector_store_t :=
  VectorStore "vs_1" "Contoso Product Information Vector Store" "completed" (Some 1).
Definition demo_agent : agent_t :=
  Agent "asst_1" (Some ["function"; "code_interpreter"; "file_search"]) None.
Definition demo_thread : thread_t := Thread "thread_1".
Definition demo_date : date := Date 2024 5 1.
Definition demo_template : string :=
  "Schema: {database_schema_string}, Date: {current_date}".
Definition demo_schema : string := "tbl(id)".
Definition demo_environ : gmap string string :=
  {[ "PROJECT_ENDPOINT" := "https://contoso.example/api/projects/p1" ]}.
Definition demo_config : config :=
  {| API_DEPLOYMENT_NAME := None;
     PROJECT_ENDPOINT := "https://contoso.example/api/projects/p1" |}.

(** A world in which every call succeeds, except as the arguments say:
    whether the instructions file exists, what it and the database hold,
    and how the calls of a turn and the two deletions answer. *)
Definition demo_world (have_file : bool) (template schema : string)
    (post drain delete_thread delete_agent : outcome unit) : world :=
  {| environ := demo_environ;
     tc_GREEN := "";
     tc_RESET := "";
     today := demo_date;
     module_dir := "/app/src/workshop";
     is_file := fun _ => have_file;
     read_text := fun _ => Ok template;
     create_vector_store := Ok demo_store;
     db_connect := Ok true;
     db_info := Ok schema;
     enable_auto_function_calls := Ok tt;
     create_agent := fun _ => Ok demo_agent;
     threads_create := Ok demo_thread;
     messages_create := fun _ _ _ => post;
     runs_stream := fun _ _ _ => Ok tt;
     until_done := fun _ => drain;
     threads_delete := fun _ _ => delete_thread;
     agents_delete := fun _ _ => delete_agent;
     db_close := fun _ => Ok tt;
     client_close := fun _ => Ok tt |}.

Definition calm_world : world :=
  demo_world true demo_template demo_schema (Ok tt) (Ok tt) (Ok tt) (Ok tt).

(** A schema description that itself holds placeholder tokens, and one
    that is a fragment of a placeholder, with a template that completes it. *)
Definition braced_schema : string := "{current_date}{database_schema_string}".
Definition fragment_schema : string := "date".
Definition fragment_template : string := "{current_{database_schema_string}}{current_date}".

Definition service_error : exn := Exn (Derived "HttpResponseError" Exception) "503".
Definition no_delete : exn :=
  Exn AttributeError "'ThreadsOperations' object has no attribute 'delete'".

(** The state after [add_agent_tools] failed to build the vector store:
    the first two tools are in the toolset already. *)
Definition after_failed_store (st : state) : state :=
  {| toolset := toolset st ++ [functions; CodeInterpreterTool];
     vector_store := vector_store st;
     conn := conn st;
     trace := trace st ++
       [ECreateVectorStore [TENTS_DATA_SHEET_FILE]
          "Contoso Product Information Vector Store"] |}.

(** [calm_world] with other answers of the vector-store, database and
    thread-creation calls. *)
Definition startup_world (store : outcome vector_store_t) (opened : bool)
    (thread : outcome thread_t) : world :=
  {| environ := demo_environ;
     tc_GREEN := "";
     tc_RESET := "";
     today := demo_date;
     module_dir := "/app/src/workshop";
     is_file := fun _ => true;
     read_text := fun _ => Ok demo_template;
     create_vector_store := store;
     db_connect := Ok opened;
     db_info := Ok demo_schema;
     enable_auto_function_calls := Ok tt;
     create_agent := fun _ => Ok demo_agent;
     threads_create := thread;
     messages_create := fun _ _ _ => Ok tt;
     runs_stream := fun _ _ _ => Ok tt;
     until_done := fun _ => Ok tt;
     threads_delete := fun _ _ => Ok tt;
     agents_delete := fun _ _ => Ok tt;
     db_close := fun _ => Ok tt;
     client_close := fun _ => Ok tt |}.

Definition interrupt : exn := Exn KeyboardInterrupt "".

(** * Properties *)

(** ** Facts about the string operations *)

Example replace_scan : str_replace "aaaa" "aa" "b" = "bb".
Proof. reflexivity. Qed.

Section ListStringFacts.
Context {A : Type} `{EqDecision A}.
Implicit Types p s old new r : list A.

Lemma starts_with_prefix p s : starts_with p s = true <-> p `prefix_of` s.
Proof.
  revert s; induction p as [|a p IH]; intros [|b s]; simpl.
  - split; [intros _; apply prefix_nil | done].
  - split; [intros _; apply prefix_nil | done].
  - split; [done | intros Hp; apply prefix_nil_not in Hp; done].
  - destruct (decide (a = b)) as [->|Hne].
    + rewrite IH. split; [apply prefix_cons | apply prefix_cons_inv_2].
    + split; [done | intros Hp; apply prefix_cons_inv_1 in Hp; done].
Qed.

Lemma starts_with_app p k : starts_with p (p ++ k) = true.
Proof. apply starts_with_prefix. by exists k. Qed.

Lemma starts_with_split p s : starts_with p s = true -> exists k, s = p ++ k.
Proof. intros Hp. by apply starts_with_prefix in Hp. Qed.

Lemma starts_with_nil_r p : starts_with p [] = true -> p = [].
Proof. by destruct p. Qed.

Lemma starts_with_cons a p b s :
  starts_with (a :: p) (b :: s) = true <-> a = b /\ starts_with p s = true.
Proof.
  simpl. destruct (decide (a = b)) as [->|Hne]; [tauto|].
  split; [done | by intros [? _]].
Qed.

(** A prefix of [n ++ r] ends inside [n] or runs over all of it. *)
Lemma starts_with_app_cases p n r :
  starts_with p (n ++ r) = true ->
  starts_with p n = true \/ exists k, p = n ++ k /\ starts_with k r = true.
Proof.
  revert p; induction n as [|b n IH]; intros p Hp; simpl in *.
  - right. by exists p.
  - destruct p as [|a p]; [by left|].
    apply starts_with_cons in Hp as [-> Hp].
    destruct (IH _ Hp) as [Hl|(k & -> & Hk)].
    + left. by apply starts_with_cons.
    + right. by exists k.
Qed.

Lemma contains_nil_l s : contains [] s = true.
Proof. by destruct s. Qed.

Lemma contains_nil_r p : contains p [] = true -> p = [].
Proof. simpl. rewrite orb_false_r. apply starts_with_nil_r. Qed.

Lemma contains_cons p c s :
  contains p (c :: s) = true <->
  starts_with p (c :: s) = true \/ contains p s = true.
Proof. simpl. by rewrite orb_true_iff. Qed.

Lemma contains_starts_with p s : starts_with p s = true -> contains p s = true.
Proof. destruct s; simpl; intros ->; done. Qed.

Lemma contains_app_r p n r : contains p r = true -> contains p (n ++ r) = true.
Proof.
  intros Hr. induction n as [|b n IH]; [done|].
  rewrite <-app_comm_cons. apply contains_cons. by right.
Qed.

Lemma contains_app_l p s r : contains p s = true -> contains p (s ++ r) = true.
Proof.
  induction s as [|c s IH]; intros Hs.
  - apply contains_nil_r in Hs as ->. apply contains_nil_l.
  - rewrite <-app_comm_cons. apply contains_cons.
    apply contains_cons in Hs as [Hs|Hs]; [left|right; by apply IH].
    apply starts_with_prefix in Hs. apply starts_with_prefix.
    rewrite app_comm_cons. by apply prefix_app_r.
Qed.

(** [p in s] says that [s] splits around a copy of [p]. *)
Lemma contains_infix p s :
  contains p s = true <-> exists l r, s = l ++ p ++ r.
Proof.
  split.
  - induction s as [|c s IH]; intros Hs.
    + apply contains_nil_r in Hs as ->. by exists [], [].
    + apply contains_cons in Hs as [Hs|Hs].
      * apply starts_with_split in Hs as [k ->]. by exists [], k.
      * destruct (IH Hs) as (l & r & ->). by exists (c :: l), r.
  - intros (l & r & ->). apply contains_app_r, contains_app_l.
    rewrite <-(app_nil_r p) at 2. apply contains_starts_with, starts_with_app.
Qed.

(** An occurrence of [p] in [n ++ r] lies in [r] or starts inside [n]. *)
Lemma contains_app_cases p n r :
  contains p (n ++ r) = true ->
  contains p r = true \/
  exists n1 n2, n = n1 ++ n2 /\ n2 <> [] /\ starts_with p (n2 ++ r) = true.
Proof.
  induction n as [|b n IH]; intros Hp; [by left|].
  rewrite <-app_comm_cons in Hp. apply contains_cons in Hp as [Hp|Hp].
  - right. by exists [], (b :: n).
  - destruct (IH Hp) as [Hr|(n1 & n2 & -> & Hn2 & Hs)]; [by left|].
    right. by exists (b :: n1), n2.
Qed.

Lemma replace_go_skip old new k s :
  replace_go old new k s = replace_go old new 0 (drop k s).
Proof.
  revert k; induction s as [|c s IH]; intros [|k]; try done.
  simpl. apply IH.
Qed.

Lemma replace_go_match old new rest :
  old <> [] ->
  replace_go old new 0 (old ++ rest) = new ++ replace_go old new 0 rest.
Proof.
  intros Hold. destruct old as [|a old]; [done|].
  rewrite <-app_comm_cons.
  change (replace_go (a :: old) new 0 (a :: old ++ rest))
    with (if starts_with (a :: old) (a :: old ++ rest)
          then new ++ replace_go (a :: old) new (length (a :: old) - 1) (old ++ rest)
          else a :: replace_go (a :: old) new 0 (old ++ rest)).
  rewrite (app_comm_cons old rest a), starts_with_app.
  rewrite replace_go_skip. simpl. rewrite Nat.sub_0_r.
  by rewrite drop_app_length.
Qed.

Lemma replace_go_keep old new c s :
  starts_with old (c :: s) = false ->
  replace_go old new 0 (c :: s) = c :: replace_go old new 0 s.
Proof.
  intros Hs.
  change (replace_go old new 0 (c :: s))
    with (if starts_with old (c :: s)
          then new ++ replace_go old new (length old - 1) s
          else c :: replace_go old new 0 s).
  by rewrite Hs.
Qed.

(** [replace_go] computes the graph [replaced]. *)
Lemma replace_go_replaced old new s :
  old <> [] -> replaced old new s (replace_go old new 0 s).
Proof.
  intros Hold.
  induction s as [s IH] using (induction_ltof1 _ length); unfold ltof in IH.
  destruct s as [|c s]; [constructor|].
  destruct (starts_with old (c :: s)) eqn:Hs.
  - apply starts_with_split in Hs as [k Hk]. rewrite Hk.
    rewrite replace_go_match by done. constructor. apply IH.
    rewrite Hk, length_app. destruct old; [done|]. simpl. lia.
  - rewrite replace_go_keep by done. constructor; [done|].
    apply IH. simpl. lia.
Qed.
End ListStringFacts.

(** What one [replace] does to the occurrences of a string, by induction
    on the graph [replaced]. *)
Section ReplaceFacts.
Context {A : Type} `{EqDecision A}.
Variables old new : list A.
Hypothesis old_nonempty : old <> [].
Implicit Types p s r : list A.

(** A prefix made of characters that [new] lacks was there before. *)
Lemma replaced_prefix_back s r :
  replaced old new s r ->
  new <> [] ->
  forall p, (forall x, x ∈ p -> x ∉ new) ->
       starts_with p r = true -> starts_with p s = true.
Proof.
  intros Hrep Hnew.
  induction Hrep as [|rest r _ _|c s r Hc _ IH]; intros p Hp Hs; [done| |].
  - destruct p as [|a p]; [done|]. destruct new as [|b n]; [done|].
    rewrite <-app_comm_cons in Hs. apply starts_with_cons in Hs as [-> _].
    destruct (Hp b); apply list_elem_of_here.
  - destruct p as [|a p]; [done|].
    apply starts_with_cons in Hs as [-> Hs]. apply starts_with_cons.
    split; [done|]. apply IH; [|done].
    intros x Hx. apply Hp. by apply list_elem_of_further.
Qed.

(** A prefix made of characters other than the first of [old] stays. *)
Lemma replaced_prefix_kept s r :
  replaced old new s r ->
  forall p, (forall a o, old = a :: o -> a ∉ p) ->
       starts_with p s = true -> starts_with p r = true.
Proof.
  intros Hrep.
  induction Hrep as [|rest r _ _|c s r Hc _ IH]; intros p Hp Hs; [done| |].
  - destruct p as [|a p]; [done|]. destruct old as [|b o]; [done|].
    rewrite <-app_comm_cons in Hs. apply starts_with_cons in Hs as [-> _].
    destruct (Hp b o eq_refl); apply list_elem_of_here.
  - destruct p as [|a p]; [done|].
    apply starts_with_cons in Hs as [-> Hs]. apply starts_with_cons.
    split; [done|]. apply IH; [|done].
    intros b o Ho Hb. apply (Hp b o Ho). by apply list_elem_of_further.
Qed.

(** Every occurrence of [old] gives an occurrence of [new]. *)
Lemma replaced_inserts s r :
  replaced old new s r -> contains old s = true -> contains new r = true.
Proof.
  induction 1 as [|rest r _ _|c s r Hc _ IH]; intros Hs.
  - by apply contains_nil_r in Hs.
  - apply contains_starts_with, starts_with_app.
  - apply contains_cons in Hs as [Hs|Hs]; [congruence|].
    apply contains_cons. right. by apply IH.
Qed.

(** A string that cannot overlap [old] survives the replacement. *)
Lemma replaced_preserves p s r :
  no_overlap p old ->
  replaced old new s r -> contains p s = true -> contains p r = true.
Proof.
  intros [Hhd Hsuf] Hrep.
  induction Hrep as [|rest r _ IH|c s r Hc Hrep IH]; intros Hs; [done| |].
  - apply contains_app_cases in Hs as [Hs|(o1 & o2 & Ho & Ho2 & Hs)].
    + by apply contains_app_r, IH.
    + destruct (Hsuf o1 o2 Ho Ho2) as [H1 H2].
      apply starts_with_app_cases in Hs as [Hs|(k & -> & _)]; [congruence|].
      by rewrite starts_with_app in H2.
  - apply contains_cons in Hs as [Hs|Hs].
    + destruct p as [|a p]; [apply contains_nil_l|].
      apply starts_with_cons in Hs as [-> Hs].
      apply contains_starts_with, starts_with_cons. split; [done|].
      apply (replaced_prefix_kept s r Hrep); [|done].
      intros b o Ho. by apply (Hhd b o).
    + apply contains_cons. right. by apply IH.
Qed.

(** A string sharing no character with [new] is not created. *)
Lemma replaced_creates_not p s r :
  new <> [] -> (forall x, x ∈ p -> x ∉ new) ->
  replaced old new s r -> contains p r = true -> contains p s = true.
Proof.
  intros Hnew Hp Hrep.
  induction Hrep as [|rest r _ IH|c s r Hc Hrep IH]; intros Hr; [done| |].
  - apply contains_app_cases in Hr as [Hr|(n1 & n2 & Hn & Hn2 & Hr)].
    + by apply contains_app_r, IH.
    + destruct p as [|a p]; [apply contains_nil_l|].
      destruct n2 as [|b n2]; [done|].
      rewrite <-app_comm_cons in Hr. apply starts_with_cons in Hr as [-> _].
      destruct (Hp b); [apply list_elem_of_here|].
      rewrite Hn. apply elem_of_app. right. apply list_elem_of_here.
  - apply contains_cons in Hr as [Hr|Hr].
    + destruct p as [|a p]; [apply contains_nil_l|].
      apply starts_with_cons in Hr as [-> Hr].
      apply contains_starts_with, starts_with_cons. split; [done|].
      apply (replaced_prefix_back s r Hrep Hnew); [|done].
      intros x Hx. apply Hp. by apply list_elem_of_further.
    + apply contains_cons. right. by apply IH.
Qed.

(** From here on [new] holds neither the first nor the last character
    of [old], and is not a part of [old]. *)
Hypothesis new_first : forall a o, old = a :: o -> a ∉ new.
Hypothesis new_last : forall o z, old = o ++ [z] -> z ∉ new.
Hypothesis new_not_part : contains new old = false.

(** A suffix of [old] at the head of the result was at the head before. *)
Lemma replaced_suffix_back s r :
  replaced old new s r ->
  forall q p, old = q ++ p -> p <> [] ->
         starts_with p r = true -> starts_with p s = true.
Proof.
  intros Hrep.
  induction Hrep as [|rest r _ _|c s r Hc _ IH]; intros q p Ho Hp Hs.
  - by apply starts_with_nil_r in Hs.
  - apply starts_with_app_cases in Hs as [Hs|(k & -> & _)].
    + destruct p as [|z p _] using rev_ind; [done|].
      apply starts_with_split in Hs as [k Hk].
      destruct (new_last (q ++ p) z); [by rewrite Ho, app_assoc|].
      rewrite Hk, !elem_of_app. left. right. apply list_elem_of_here.
    + assert (contains new old = true); [|congruence].
      apply contains_infix. by exists q, k.
  - destruct p as [|a p]; [done|].
    apply starts_with_cons in Hs as [-> Hs]. apply starts_with_cons.
    split; [done|]. destruct p as [|b p]; [done|].
    apply (IH (q ++ [c])); [by rewrite <-app_assoc|done|done].
Qed.

(** No occurrence of [old] is left. *)
Lemma replaced_removes s r :
  replaced old new s r -> contains old r = false.
Proof.
  assert (exists a o, old = a :: o) as (a & o & Ho).
  { destruct old as [|a o]; [done|]. by exists a, o. }
  intros Hrep. apply not_true_is_false.
  induction Hrep as [|rest r _ IH|c s r Hc Hrep IH]; intros Hr.
  - by apply contains_nil_r in Hr.
  - apply contains_app_cases in Hr as [Hr|(n1 & n2 & Hn & Hn2 & Hr)]; [done|].
    destruct n2 as [|b n2]; [done|].
    rewrite Ho, <-app_comm_cons in Hr. apply starts_with_cons in Hr as [-> _].
    destruct (new_first b o Ho).
    rewrite Hn. apply elem_of_app. right. apply list_elem_of_here.
  - apply contains_cons in Hr as [Hr|Hr]; [|done].
    rewrite Ho in Hr, Hc.
    apply starts_with_cons in Hr as [-> Hr].
    assert (starts_with (c :: o) (c :: s) = true); [|congruence].
    apply starts_with_cons. split; [done|].
    destruct o as [|b o]; [done|].
    by apply (replaced_suffix_back s r Hrep [c] (b :: o)).
Qed.
End ReplaceFacts.

Section OverlapFacts.
Context {A : Type} `{EqDecision A}.
Implicit Types p old u s : list A.

Lemma no_overlap_tails_sound p u :
  no_overlap_tails p u = true ->
  forall q u', u = q ++ u' -> u' <> [] ->
          starts_with p u' = false /\ starts_with u' p = false.
Proof.
  induction u as [|c u IH]; intros Hu q u' Hq Hne.
  - symmetry in Hq. by apply app_eq_nil in Hq as [_ ->].
  - simpl in Hu. apply andb_true_iff in Hu as [Hu Hrest].
    apply andb_true_iff in Hu as [H1 H2].
    destruct q as [|b q].
    + simpl in Hq. subst u'.
      by split; apply negb_true_iff.
    + injection Hq as -> Hq. by apply (IH Hrest q).
Qed.

Lemma no_overlap_b_sound p old : no_overlap_b p old = true -> no_overlap p old.
Proof.
  unfold no_overlap_b, no_overlap. destruct old as [|a old].
  - intros _. split; [done|]. intros q u Hq Hu.
    symmetry in Hq. by apply app_eq_nil in Hq as [_ ->].
  - intros Hb. apply andb_true_iff in Hb as [Hhd Htl].
    apply bool_decide_eq_true in Hhd. split.
    + intros b o [= <- _]. done.
    + by apply no_overlap_tails_sound.
Qed.

Lemma contains_single a s : contains [a] s = false <-> a ∉ s.
Proof.
  induction s as [|c s IH]; simpl.
  - split; [intros _; apply not_elem_of_nil | done].
  - rewrite not_elem_of_cons. destruct (decide (a = c)) as [->|Hne]; simpl.
    + split; [done | by intros [? _]].
    + rewrite <-IH. simpl. tauto.
Qed.

(** A string with a character that [old] lacks is not a part of [old]. *)
Lemma contains_foreign p old x :
  x ∈ p -> x ∉ old -> contains p old = false.
Proof.
  intros Hp Ho. apply not_true_is_false. intros Hc.
  apply contains_infix in Hc as (l & r & ->). apply Ho.
  rewrite !elem_of_app. auto.
Qed.

(** A string without the first and the last character of [old] that is
    not a part of [old] cannot overlap an occurrence of [old]. *)
Lemma no_overlap_fresh p old :
  (forall a o, old = a :: o -> a ∉ p) ->
  (forall o z, old = o ++ [z] -> z ∉ p) ->
  contains p old = false ->
  no_overlap p old.
Proof.
  intros Hfirst Hlast Hpart. split.
  - intros a o Ho Ha. apply (Hfirst a o Ho).
    destruct p; [done|]. by apply list_elem_of_further.
  - intros q u Ho Hu. split; apply not_true_is_false; intros Hs.
    + apply starts_with_split in Hs as [k ->].
      assert (contains p old = true); [|congruence].
      apply contains_infix. by exists q, k.
    + destruct u as [|z u _] using rev_ind; [done|].
      apply starts_with_split in Hs as [k ->].
      destruct (Hlast (q ++ u) z); [by rewrite Ho, app_assoc|].
      rewrite !elem_of_app. left. right. apply list_elem_of_here.
Qed.
End OverlapFacts.

Lemma chars_of_chars l : chars (of_chars l) = l.
Proof. apply String.list_ascii_of_string_of_list_ascii. Qed.

Lemma of_chars_chars s : of_chars (chars s) = s.
Proof. apply String.string_of_list_ascii_of_string. Qed.

(** ** The date string *)

Lemma digit_is_date_char n : is_date_char (digit n) = true.
Proof.
  unfold digit. destruct (n mod 10) as [|[|[|[|[|[|[|[|[|k]]]]]]]]]; reflexivity.
Qed.

Lemma strftime_date_chars d :
  Forall (fun c => is_date_char c = true) (strftime_Ymd_chars d).
Proof.
  unfold strftime_Ymd_chars, pad4, pad2. simpl.
  repeat (apply Forall_cons; split; [first [apply digit_is_date_char | reflexivity]|]).
  apply Forall_nil_2.
Qed.

Lemma date_char_absent d x : is_date_char x = false -> x ∉ strftime_Ymd_chars d.
Proof.
  intros Hx Hin. pose proof (strftime_date_chars d) as Hall.
  rewrite Forall_forall in Hall. specialize (Hall x Hin). congruence.
Qed.

Lemma strftime_length d : length (strftime_Ymd_chars d) = 10.
Proof. reflexivity. Qed.

Example strftime_demo : strftime_Ymd demo_date = "2024-05-01".
Proof. reflexivity. Qed.

(** ** Rendering the instructions *)

Lemma render_instructions_chars t s d :
  chars (render_instructions t s d) =
  replace_go (chars date_placeholder) (strftime_Ymd_chars d) 0
    (replace_go (chars schema_placeholder) (chars s) 0 (chars t)).
Proof.
  unfold render_instructions, str_replace, strftime_Ymd.
  by rewrite !chars_of_chars.
Qed.

Lemma is_placeholder_intro P o :
  P = "{"%char :: o -> last P = Some "}"%char ->
  forallb (fun c => negb (is_date_char c)) P = true -> is_placeholder P.
Proof.
  intros HP Hlast Hall. repeat split.
  - intros a o' Ha. rewrite HP in Ha. by injection Ha as <- _.
  - intros o' z Hz. rewrite Hz, last_snoc in Hlast. by injection Hlast.
  - by rewrite HP.
  - apply Forall_forall. intros c Hc.
    rewrite forallb_forall in Hall. apply negb_true_iff, Hall.
    by apply list_elem_of_In.
Qed.

Lemma schema_placeholder_shape : is_placeholder (chars schema_placeholder).
Proof. by eapply is_placeholder_intro. Qed.

Lemma date_placeholder_shape : is_placeholder (chars date_placeholder).
Proof. by eapply is_placeholder_intro. Qed.

(** Replacing a placeholder by the date string leaves no copy of it. *)
Lemma date_replaces_placeholder P d s r :
  is_placeholder P ->
  replaced P (strftime_Ymd_chars d) s r -> contains P r = false.
Proof.
  intros (Hfirst & Hlast & Hne & Hall) Hrep.
  refine (replaced_removes P (strftime_Ymd_chars d) Hne _ _ _ s r Hrep).
  - intros a o Ha. rewrite (Hfirst a o Ha). by apply date_char_absent.
  - intros o z Hz. rewrite (Hlast o z Hz). by apply date_char_absent.
  - apply (contains_foreign _ _ (digit (year d / 1000))).
    + apply list_elem_of_here.
    + intros Hin. rewrite Forall_forall in Hall.
      specialize (Hall _ Hin). by rewrite digit_is_date_char in Hall.
Qed.

Lemma plain_schema_b_sound s : plain_schema_b s = true -> plain_schema s.
Proof.
  unfold plain_schema_b, plain_schema. rewrite !andb_true_iff, !negb_true_iff. tauto.
Qed.

Lemma render_instructions_sound t s d :
  str_contains schema_placeholder t = true ->
  str_contains date_placeholder t = true ->
  plain_schema s ->
  let out := render_instructions t s d in
  str_contains schema_placeholder out = false /\
  str_contains date_placeholder out = false /\
  str_contains s out = true /\
  str_contains (strftime_Ymd d) out = true.
Proof.
  intros HtD HtC (Hopen & Hclose & HsD & HsC) out.
  unfold str_contains in *. subst out. rewrite render_instructions_chars.
  unfold strftime_Ymd. rewrite chars_of_chars.
  apply contains_single in Hopen, Hclose.
  pose proof schema_placeholder_shape as HD.
  pose proof date_placeholder_shape as HC.
  set (D := chars schema_placeholder) in *.
  set (C := chars date_placeholder) in *.
  set (dl := strftime_Ymd_chars d).
  set (mid := replace_go D (chars s) 0 (chars t)).
  assert (Hmid : replaced D (chars s) (chars t) mid)
    by (apply replace_go_replaced; apply HD).
  assert (Hout : replaced C dl mid (replace_go C dl 0 mid))
    by (apply replace_go_replaced; apply HC).
  set (out := replace_go C dl 0 mid) in *.
  assert (HmidD : contains D mid = false).
  { destruct HD as (Hfirst & Hlast & Hne & _).
    refine (replaced_removes D (chars s) Hne _ _ HsD (chars t) mid Hmid).
    - intros a o Ha. by rewrite (Hfirst a o Ha).
    - intros o z Hz. by rewrite (Hlast o z Hz). }
  destruct HD as (HDfirst & HDlast & HDne & HDall).
  destruct HC as (HCfirst & HClast & HCne & HCall).
  assert (HmidC : contains C mid = true).
  { refine (replaced_preserves D (chars s) HDne C (chars t) mid _ Hmid HtC).
    by apply no_overlap_b_sound. }
  assert (Hmids : contains (chars s) mid = true).
  { exact (replaced_inserts D (chars s) HDne (chars t) mid Hmid HtD). }
  repeat split.
  - apply not_true_is_false. intros Hc.
    assert (contains D mid = true); [|congruence].
    refine (replaced_creates_not C dl D mid out _ _ Hout Hc); [done|].
    intros x Hx. apply date_char_absent.
    rewrite Forall_forall in HDall. auto.
  - by apply (date_replaces_placeholder C d mid out).
  - refine (replaced_preserves C dl HCne (chars s) mid out _ Hout Hmids).
    apply no_overlap_fresh; [| |done].
    + intros a o Ha. by rewrite (HCfirst a o Ha).
    + intros o z Hz. by rewrite (HClast o z Hz).
  - exact (replaced_inserts C dl HCne mid out Hout HmidC).
Qed.

Example render_demo :
  render_instructions demo_template demo_schema demo_date =
  "Schema: tbl(id), Date: 2024-05-01".
Proof. reflexivity. Qed.

(** ** Rules for [emits] and [returns] *)

Section RunFacts.
Context {A : Type}.
Variable P : event -> Prop.

Lemma emits_silent (m : M A) :
  (forall st, trace (fst (m st)) = trace st) -> emits P m.
Proof. intros Hm st. exists []. by rewrite Hm, app_nil_r. Qed.

Lemma emits_ret (a : A) : emits P (ret a).
Proof. by apply emits_silent. Qed.

Lemma emits_raise (e : exn) : emits P (@raise A e).
Proof. by apply emits_silent. Qed.

Lemma emits_get (f : state -> A) : emits P (get f).
Proof. by apply emits_silent. Qed.

Lemma emits_call ev (answer : list event -> outcome A) :
  P ev -> emits P (call ev answer).
Proof. intros Hev st. exists [ev]. split; [done|]. by apply Forall_singleton. Qed.

Lemma emits_try_except cls (body : M A) handler :
  emits P body -> (forall e, emits P (handler e)) ->
  emits P (try_except cls body handler).
Proof.
  intros Hb Hh st. unfold try_except.
  destruct (Hb st) as (evs & Htr & Hevs).
  destruct (body st) as [st' [a|e]]; simpl in *; [by exists evs|].
  destruct (isinstance e cls); [|by exists evs].
  destruct (Hh e st') as (evs' & Htr' & Hevs').
  exists (evs ++ evs'). split; [by rewrite Htr', Htr, app_assoc|].
  by apply Forall_app.
Qed.

Lemma emits_try_finally (body : M A) fin :
  emits P body -> emits P fin -> emits P (try_finally body fin).
Proof.
  intros Hb Hf st. unfold try_finally.
  destruct (Hb st) as (evs & Htr & Hevs).
  destruct (body st) as [st' r]; simpl in *.
  destruct (Hf st') as (evs' & Htr' & Hevs').
  exists (evs ++ evs'). split; [|by apply Forall_app].
  destruct (fin st') as [st'' [u|e]]; simpl in *; by rewrite Htr', Htr, app_assoc.
Qed.

Lemma returns_ret (a b : A) : returns (ret a) b -> b = a.
Proof. intros [st Hst]. simpl in Hst. by injection Hst. Qed.

Lemma returns_raise (e : exn) (a : A) : ~ returns (raise e) a.
Proof. by intros [st Hst]. Qed.

Lemma returns_call ev (answer : list event -> outcome A) a :
  returns (call ev answer) a -> exists h, answer h = Ok a.
Proof. intros [st Hst]. by exists (trace st). Qed.

Lemma returns_try_except cls (body : M A) handler a :
  returns (try_except cls body handler) a ->
  returns body a \/ exists e, returns (handler e) a.
Proof.
  intros [st Hst]. unfold try_except in Hst.
  destruct (body st) as [st' [b|e]] eqn:Hb; simpl in Hst.
  - left. exists st. by rewrite Hb.
  - destruct (isinstance e cls); [|done]. right. exists e. by exists st'.
Qed.
End RunFacts.

Lemma emits_emit P ev : P ev -> emits P (emit ev).
Proof. intros Hev st. exists [ev]. split; [done|]. by apply Forall_singleton. Qed.

Lemma emits_bind {A B} P (m : M A) (k : A -> M B) :
  emits P m -> (forall a, returns m a -> emits P (k a)) -> emits P (bind m k).
Proof.
  intros Hm Hk st. unfold bind.
  destruct (Hm st) as (evs & Htr & Hevs).
  destruct (m st) as [st' [a|e]] eqn:Hst; simpl in *; [|by exists evs].
  destruct (Hk a) with (st := st') as (evs' & Htr' & Hevs').
  { exists st. by rewrite Hst. }
  exists (evs ++ evs'). split; [by rewrite Htr', Htr, app_assoc|].
  by apply Forall_app.
Qed.

Lemma returns_bind {A B} (m : M A) (k : A -> M B) b :
  returns (bind m k) b -> exists a, returns m a /\ returns (k a) b.
Proof.
  intros [st Hst]. unfold bind in Hst.
  destruct (m st) as [st' [a|e]] eqn:Hm; [|done].
  exists a. split; [exists st; by rewrite Hm | by exists st'].
Qed.

(** The events of a run are determined by its final trace. *)
Lemma emits_events {A} P (m : M A) st evs :
  emits P m -> trace (fst (m st)) = trace st ++ evs -> Forall P evs.
Proof.
  intros Hm Htr. destruct (Hm st) as (evs' & Htr' & Hevs').
  rewrite Htr in Htr'. by apply app_inv_head in Htr' as ->.
Qed.

Ltac emits_step :=
  lazymatch goal with
  | |- emits _ (bind _ _) => apply emits_bind; [|intros ? ?]
  | |- emits _ (ret _) => apply emits_ret
  | |- emits _ (raise _) => apply emits_raise
  | |- emits _ (get _) => apply emits_get
  | |- emits _ (emit _) => apply emits_emit
  | |- emits _ (print _) => apply emits_emit
  | |- emits _ (logger_error _) => apply emits_emit
  | |- emits _ (log_msg_purple _) => apply emits_emit
  | |- emits _ (call _ _) => apply emits_call
  | |- emits _ (toolset_add _) => by apply emits_silent
  | |- emits _ (set_vector_store _) => by apply emits_silent
  | |- emits _ (set_conn _) => by apply emits_silent
  | |- emits _ (try_except _ _ _) => apply emits_try_except; [|intros ?]
  | |- emits _ (try_finally _ _) => apply emits_try_finally
  | |- emits _ (if ?b then _ else _) => destruct b eqn:?
  | |- emits _ (match ?x with _ => _ end) => destruct x eqn:?
  end.

(** ** The agent-creation call *)

Ltac returned_value :=
  repeat match goal with
         | H : returns (call _ _) _ |- _ => apply returns_call in H as [_ H]
         end.

Lemma initialize_emits w cfg : emits (create_agent_call w cfg) (initialize w cfg).
Proof.
  unfold initialize, initialize_except, add_agent_tools, initialize_body.
  repeat emits_step; try exact I.
  returned_value. simpl. do 3 eexists. split; [eassumption|]. split; [eassumption|reflexivity].
Qed.

Lemma initialize_keys w cfg : emits create_agent_keys (initialize w cfg).
Proof.
  unfold initialize, initialize_except, add_agent_tools, initialize_body.
  repeat emits_step; try exact I.
  by split.
Qed.

(** Outside [initialize] no agent is created. *)
Section NoAgentCreation.
Variable P : event -> Prop.
Hypothesis P_other : forall ev, match ev with ECreateAgent _ => True | _ => P ev end.

Lemma post_message_emits w tid content agent thread :
  emits P (post_message w tid content agent thread).
Proof.
  unfold post_message, post_message_body.
  repeat emits_step;
    match goal with |- P ?ev => exact (P_other ev) end.
Qed.

Lemma cleanup_emits w agent thread : emits P (cleanup w agent thread).
Proof.
  unfold cleanup, delete_thread, delete_agent.
  repeat emits_step;
    match goal with |- P ?ev => exact (P_other ev) end.
Qed.

Lemma main_loop_emits w agent thread stdin :
  emits P (main_loop w agent thread stdin).
Proof.
  induction stdin as [|prompt rest IH]; simpl.
  - repeat emits_step; match goal with |- P ?ev => exact (P_other ev) end.
  - repeat emits_step;
      try match goal with |- P ?ev => exact (P_other ev) end.
    all: first [apply IH | apply post_message_emits].
Qed.

Lemma main_emits w cfg stdin :
  emits P (initialize w cfg) -> emits P (main w cfg stdin).
Proof.
  intros Hinit. unfold main, main_except.
  repeat emits_step;
    try match goal with |- P ?ev => exact (P_other ev) end.
  - done.
  - apply main_loop_emits.
  - apply cleanup_emits.
Qed.
End NoAgentCreation.

(** ** Running [initialize] *)

Lemma record_extend ev st : record ev st = extend [ev] st.
Proof. done. Qed.

Lemma extend_extend evs evs' st : extend evs' (extend evs st) = extend (evs ++ evs') st.
Proof. unfold extend. simpl. by rewrite app_assoc. Qed.

Lemma initialize_starts w cfg st vs opened schema :
  create_vector_store w = Ok vs ->
  db_connect w = Ok opened ->
  db_info w = Ok schema ->
  initialize w cfg st =
  try_except Exception (initialize_body w cfg schema) initialize_except
    (after_prelude st vs opened).
Proof.
  intros Hvs Hconn Hinfo.
  unfold initialize, add_agent_tools, bind, call, print, emit, toolset_add,
    set_vector_store, set_conn, record. simpl.
  rewrite Hvs. simpl. rewrite Hconn. simpl. rewrite Hinfo.
  unfold after_prelude, prelude_events. simpl.
  repeat rewrite <- app_assoc. simpl.
  reflexivity.
Qed.

Lemma initialize_body_without_file w cfg schema st :
  is_file w (instructions_path w) = false ->
  initialize_body w cfg schema st = (st, Raise (file_not_found w)).
Proof. intros Hfile. unfold initialize_body. by rewrite Hfile. Qed.

Lemma initialize_without_file w cfg st vs opened schema :
  create_vector_store w = Ok vs ->
  db_connect w = Ok opened ->
  db_info w = Ok schema ->
  is_file w (instructions_path w) = false ->
  initialize w cfg st =
  (extend
     [ ELogError ("An error occurred initializing the agent: " +:+ py_str (file_not_found w));
       ELogError "Please ensure the instructions file exists and the database is accessible." ]
     (after_prelude st vs opened),
   Raise (file_not_found w)).
Proof.
  intros Hvs Hconn Hinfo Hfile.
  rewrite (initialize_starts w cfg st vs opened schema) by done.
  unfold try_except. rewrite initialize_body_without_file by done.
  unfold initialize_except, bind, logger_error, emit, raise. simpl.
  by rewrite !record_extend, extend_extend.
Qed.

Lemma main_without_file w cfg stdin st vs opened schema :
  create_vector_store w = Ok vs ->
  db_connect w = Ok opened ->
  db_info w = Ok schema ->
  is_file w (instructions_path w) = false ->
  main w cfg stdin st =
  (extend
     [ ELogError ("An error occurred initializing the agent: " +:+ py_str (file_not_found w));
       ELogError "Please ensure the instructions file exists and the database is accessible.";
       ELogError ("Initialization failed: " +:+ py_str (file_not_found w));
       EPrint "Initialization failed. Check logs and configuration, then try again." ]
     (after_prelude st vs opened),
   Ok tt).
Proof.
  intros Hvs Hconn Hinfo Hfile.
  unfold main, bind at 1, try_except, bind at 1.
  rewrite (initialize_without_file w cfg st vs opened schema) by done.
  unfold main_except, bind, logger_error, print, emit, ret. simpl.
  by rewrite !record_extend, !extend_extend.
Qed.

Lemma initialize_never_returns_without_file w cfg created :
  is_file w (instructions_path w) = false -> ~ returns (initialize w cfg) created.
Proof.
  intros Hfile Hret. unfold initialize in Hret.
  repeat (apply returns_bind in Hret as (? & _ & Hret)).
  apply returns_try_except in Hret as [[st Hret]|[e Hret]].
  - by rewrite initialize_body_without_file in Hret.
  - unfold initialize_except in Hret.
    repeat (apply returns_bind in Hret as (? & _ & Hret)).
    by apply returns_raise in Hret.
Qed.

Lemma main_no_conversation_without_file w cfg stdin :
  is_file w (instructions_path w) = false ->
  emits (fun ev => is_conversation ev = false) (main w cfg stdin).
Proof.
  intros Hfile. unfold main.
  apply emits_bind.
  - unfold main_except, initialize, initialize_except, add_agent_tools.
    repeat emits_step; try reflexivity.
    intros st. rewrite initialize_body_without_file by done. exists []. simpl.
    by rewrite app_nil_r.
  - intros started Hret.
    apply returns_try_except in Hret as [Hret|[e Hret]].
    + apply returns_bind in Hret as (created & Hret & _).
      by apply initialize_never_returns_without_file in Hret.
    + unfold main_except in Hret.
      repeat (apply returns_bind in Hret as (? & _ & Hret)).
      apply returns_ret in Hret as ->. apply emits_ret.
Qed.

(** ** Running [cleanup] *)

Lemma delete_thread_run w thread st :
  delete_thread w thread st =
  (record (EThreadsDelete (thread_id thread)) st,
   match threads_delete w (trace st) (thread_id thread) with
   | Ok u => Ok u
   | Raise e => if isinstance e AttributeError then Ok tt else Raise e
   end).
Proof.
  unfold delete_thread, try_except, call. simpl.
  destruct (threads_delete _ _ _) as [u|e]; [done|].
  by destruct (isinstance e AttributeError).
Qed.

Lemma delete_agent_run w agent st :
  delete_agent w agent st =
  (record (EAgentsDelete (agent_id agent)) st,
   match agents_delete w (trace st) (agent_id agent) with
   | Ok u => Ok u
   | Raise e => if isinstance e AttributeError then Ok tt else Raise e
   end).
Proof.
  unfold delete_agent, try_except, call. simpl.
  destruct (agents_delete _ _ _) as [u|e]; [done|].
  by destruct (isinstance e AttributeError).
Qed.

Lemma bind_ok {A B} (m : M A) (k : A -> M B) st st' a :
  m st = (st', Ok a) -> bind m k st = k a st'.
Proof. intros Hm. unfold bind. by rewrite Hm. Qed.

Lemma bind_raise {A B} (m : M A) (k : A -> M B) st st' e :
  m st = (st', Raise e) -> bind m k st = (st', Raise e).
Proof. intros Hm. unfold bind. by rewrite Hm. Qed.

(** ** Running [post_message] and the loop *)

Lemma post_message_body_run w tid content agent thread st :
  post_message_body w tid content agent thread st =
  let st1 := record (EMessagesCreate tid "user" content) st in
  match messages_create w (trace st) tid content with
  | Raise e => (st1, Raise e)
  | Ok _ =>
      let st2 := record (ERunsStream (thread_id thread) (agent_id agent)) st1 in
      match runs_stream w (trace st1) (thread_id thread) (agent_id agent) with
      | Raise e => (st2, Raise e)
      | Ok _ => (record EUntilDone st2, until_done w (trace st2))
      end
  end.
Proof.
  unfold post_message_body, bind, call. simpl.
  destruct (messages_create _ _ _ _); [|done].
  by destruct (runs_stream _ _ _ _).
Qed.

(** The calls a turn makes: the message post, then the stream, then the
    drain, each at most once and in this order. *)
Lemma post_message_body_calls w tid content agent thread st st1 r :
  post_message_body w tid content agent thread st = (st1, r) ->
  exists calls,
    trace st1 = trace st ++ EMessagesCreate tid "user" content :: calls /\
    calls `prefix_of` [ERunsStream (thread_id thread) (agent_id agent); EUntilDone].
Proof.
  rewrite post_message_body_run. simpl.
  destruct (messages_create _ _ _ _).
  - destruct (runs_stream _ _ _ _); intros [= <- _]; simpl.
    + exists [ERunsStream (thread_id thread) (agent_id agent); EUntilDone].
      by rewrite <-!app_assoc.
    + exists [ERunsStream (thread_id thread) (agent_id agent)].
      rewrite <-!app_assoc. split; [done|]. by exists [EUntilDone].
  - intros [= <- _]. exists []. split; [done|]. apply prefix_nil.
Qed.

Lemma main_loop_cons w agent thread prompt rest st :
  main_loop w agent thread (prompt :: rest) st =
  (if String.eqb (str_lower prompt) "exit" then ret tt
   else if str_falsy prompt then main_loop w agent thread rest
   else bind (post_message w (thread_id thread) prompt agent thread)
             (fun _ => main_loop w agent thread rest))
    (extend [EPrint newline; EInput (input_prompt w)] st).
Proof.
  simpl. unfold bind at 1 2, print, emit. simpl.
  by rewrite !record_extend, extend_extend.
Qed.

Lemma main_loop_eof w agent thread st :
  main_loop w agent thread [] st =
  (extend [EPrint newline; EInput (input_prompt w)] st,
   Raise (Exn EOFError "EOF when reading a line")).
Proof.
  simpl. unfold bind, print, emit, raise. simpl.
  by rewrite !record_extend, extend_extend.
Qed.

(** Every iteration opens with the blank line and the prompt. *)
Lemma main_loop_prompts w agent thread stdin st :
  exists evs,
    trace (fst (main_loop w agent thread stdin st)) =
    trace st ++ [EPrint newline; EInput (input_prompt w)] ++ evs.
Proof.
  destruct stdin as [|prompt rest].
  - rewrite main_loop_eof. by exists [].
  - rewrite main_loop_cons.
    set (st' := extend _ st).
    assert (forall (m : M unit), emits (fun _ => True) m ->
              exists evs, trace (fst (m st')) = trace st ++
                [EPrint newline; EInput (input_prompt w)] ++ evs) as Hgrow.
    { intros m Hm. destruct (Hm st') as (evs & -> & _). exists evs.
      subst st'. simpl. by rewrite <-app_assoc. }
    destruct (String.eqb _ _); [|destruct (str_falsy _)]; apply Hgrow.
    + apply emits_ret.
    + apply main_loop_emits. by intros [].
    + apply emits_bind; [apply post_message_emits; by intros []|].
      intros _ _. apply main_loop_emits. by intros [].
Qed.

Lemma try_finally_ok (body fin : M unit) st st' :
  body st = (st', Ok tt) -> try_finally body fin st = fin st'.
Proof.
  intros Hb. unfold try_finally. rewrite Hb.
  by destruct (fin st') as [st'' [[]|e]].
Qed.

(** ** Letter case *)

Lemma str_lower_length s : String.length (str_lower s) = String.length s.
Proof.
  unfold str_lower, of_chars, chars.
  induction s as [|c s IH]; simpl; [done|]. by rewrite IH.
Qed.

Lemma string_length_app a b :
  String.length (a +:+ b) = String.length a + String.length b.
Proof. induction a as [|c a IH]; simpl; [done|]. by rewrite IH. Qed.

Lemma str_lower_exit_length s : str_lower s = "exit" -> String.length s = 4.
Proof. intros Hs. by rewrite <-str_lower_length, Hs. Qed.

Lemma str_falsy_empty s : str_falsy s = true <-> s = "".
Proof. by destruct s. Qed.

Lemma ascii_lower_letter c l :
  l ∈ ["e"; "x"; "i"; "t"]%char ->
  ascii_lower c = l ->
  c = l \/ c = ascii_of_nat (nat_of_ascii l - 32).
Proof.
  intros Hl.
  repeat (apply elem_of_cons in Hl as [->|Hl]); [| | | |by apply elem_of_nil in Hl].
  all: destruct c as [[] [] [] [] [] [] [] []]; vm_compute;
    intros H; try discriminate; auto.
Qed.

(** The lines that read "exit": one of e/E, x/X, i/I and t/T each. *)
Lemma str_lower_exit line :
  str_lower line = "exit" <->
  exists c1 c2 c3 c4,
    line = String c1 (String c2 (String c3 (String c4 ""))) /\
    (c1 = "e" \/ c1 = "E")%char /\ (c2 = "x" \/ c2 = "X")%char /\
    (c3 = "i" \/ c3 = "I")%char /\ (c4 = "t" \/ c4 = "T")%char.
Proof.
  pose proof ascii_lower_letter as Hletter.
  split.
  - intros Hexit. pose proof (str_lower_exit_length line Hexit) as Hlen.
    destruct line as [|c1 [|c2 [|c3 [|c4 [|c5 line]]]]]; try discriminate.
    exists c1, c2, c3, c4. split; [done|].
    unfold str_lower, of_chars, chars in Hexit. simpl in Hexit.
    injection Hexit as H1 H2 H3 H4.
    repeat split.
    + apply (Hletter c1 "e"%char); [|done]. repeat constructor.
    + apply (Hletter c2 "x"%char); [|done]. repeat constructor.
    + apply (Hletter c3 "i"%char); [|done]. repeat constructor.
    + apply (Hletter c4 "t"%char); [|done]. repeat constructor.
  - intros (c1 & c2 & c3 & c4 & -> & [-> | ->] & [-> | ->] & [-> | ->] & [-> | ->]);
      reflexivity.
Qed.

Example lower_EXIT : str_lower "EXIT" = "exit".
Proof. reflexivity. Qed.

Example lower_Exit : str_lower "Exit" = "exit".
Proof. reflexivity. Qed.

Example lower_padded : str_lower " exit" <> "exit" /\ str_lower "exit " <> "exit".
Proof. by split. Qed.

(** * The claims of the specification *)

Lemma kwarg_absent name kw : name ∉ map fst kw -> kwarg name kw = None.
Proof.
  induction kw as [|[k v] kw IH]; [done|]. simpl. intros Hname.
  apply not_elem_of_cons in Hname as [Hne Hname].
  destruct (String.eqb k name) eqn:Hk; [|by apply IH].
  apply String.eqb_eq in Hk. congruence.
Qed.

(** C1. Every agent-creation call the program makes carries the sampling
    temperature 0.1, and carries no top-p and no token budget: the
    constants [TOP_P], [MAX_PROMPT_TOKENS] and [MAX_COMPLETION_TOKENS] are
    defined and never passed. *)
Theorem create_agent_call_kwargs w cfg stdin st evs kw :
  trace (fst (main w cfg stdin st)) = trace st ++ evs ->
  ECreateAgent kw ∈ evs ->
  kwarg "temperature" kw = Some (VFloat TEMPERATURE) /\
  kwarg "top_p" kw = None /\
  kwarg "max_prompt_tokens" kw = None /\
  kwarg "max_completion_tokens" kw = None.
Proof.
  intros Htrace Hin.
  assert (Hkeys : Forall create_agent_keys evs).
  { apply (emits_events _ (main w cfg stdin) st); [|done].
    apply main_emits; [by intros []|apply initialize_keys]. }
  rewrite Forall_forall in Hkeys. destruct (Hkeys _ Hin) as [Hnames Htemp].
  split; [done|].
  repeat split; apply kwarg_absent; rewrite Hnames; intros Hname;
    repeat (apply elem_of_cons in Hname as [Hname|Hname]; [discriminate|]);
    by apply elem_of_nil in Hname.
Qed.

Lemma create_agent_call_kwargs_witness :
  kwarg "temperature"
    (create_agent_kwargs demo_config "Schema: tbl(id), Date: 2024-05-01"
       [functions; CodeInterpreterTool; FileSearchTool ["vs_1"]]) =
    Some (VFloat TEMPERATURE) /\
  kwarg "top_p"
    (create_agent_kwargs demo_config "Schema: tbl(id), Date: 2024-05-01"
       [functions; CodeInterpreterTool; FileSearchTool ["vs_1"]]) = None /\
  kwarg "max_prompt_tokens"
    (create_agent_kwargs demo_config "Schema: tbl(id), Date: 2024-05-01"
       [functions; CodeInterpreterTool; FileSearchTool ["vs_1"]]) = None /\
  kwarg "max_completion_tokens"
    (create_agent_kwargs demo_config "Schema: tbl(id), Date: 2024-05-01"
       [functions; CodeInterpreterTool; FileSearchTool ["vs_1"]]) = None.
Proof.
  apply (create_agent_call_kwargs calm_world demo_config ["exit"] initial_state
           (trace (fst (main calm_world demo_config ["exit"] initial_state)))).
  - reflexivity.
  - apply (list_elem_of_lookup_2 _ 11). reflexivity.
Defined.

(** The instructions every agent-creation call of [initialize] carries. *)
Lemma initialize_instructions w cfg st template schema evs kw :
  read_text w (instructions_path w) = Ok template ->
  db_info w = Ok schema ->
  trace (fst (initialize w cfg st)) = trace st ++ evs ->
  ECreateAgent kw ∈ evs ->
  kwarg "instructions" kw =
  Some (VStr (render_instructions template schema (today w))).
Proof.
  intros Hread Hinfo Htrace Hin.
  pose proof (emits_events _ _ st evs (initialize_emits w cfg) Htrace) as Hall.
  rewrite Forall_forall in Hall.
  destruct (Hall _ Hin) as (template' & schema' & ts & Hread' & Hinfo' & ->).
  rewrite Hread in Hread'. rewrite Hinfo in Hinfo'.
  by injection Hread' as <-; injection Hinfo' as <-.
Qed.

(** C2, as amended. For every template holding both placeholder tokens
    and every schema description that has no brace and is no fragment of
    a placeholder token, the instructions that [initialize] passes on hold
    neither placeholder token, hold the schema description and hold
    today's date as YYYY-MM-DD. *)
Theorem instructions_rendered w cfg st template schema evs kw :
  read_text w (instructions_path w) = Ok template ->
  db_info w = Ok schema ->
  str_contains schema_placeholder template = true ->
  str_contains date_placeholder template = true ->
  plain_schema schema ->
  trace (fst (initialize w cfg st)) = trace st ++ evs ->
  ECreateAgent kw ∈ evs ->
  exists instructions,
    kwarg "instructions" kw = Some (VStr instructions) /\
    str_contains schema_placeholder instructions = false /\
    str_contains date_placeholder instructions = false /\
    str_contains schema instructions = true /\
    str_contains (strftime_Ymd (today w)) instructions = true.
Proof.
  intros Hread Hinfo Hs Hd Hplain Htrace Hin.
  exists (render_instructions template schema (today w)). split.
  - by apply (initialize_instructions w cfg st template schema evs).
  - by apply render_instructions_sound.
Qed.

Lemma instructions_rendered_witness :
  exists instructions,
    kwarg "instructions"
      (create_agent_kwargs demo_config "Schema: tbl(id), Date: 2024-05-01"
         [functions; CodeInterpreterTool; FileSearchTool ["vs_1"]]) =
      Some (VStr instructions) /\
    str_contains schema_placeholder instructions = false /\
    str_contains date_placeholder instructions = false /\
    str_contains demo_schema instructions = true /\
    str_contains "2024-05-01" instructions = true.
Proof.
  apply (instructions_rendered calm_world demo_config initial_state
           demo_template demo_schema
           (trace (fst (initialize calm_world demo_config initial_state)))).
  - reflexivity.
  - reflexivity.
  - reflexivity.
  - reflexivity.
  - apply plain_schema_b_sound. reflexivity.
  - reflexivity.
  - apply (list_elem_of_lookup_2 _ 11). reflexivity.
Defined.

(** C2, as stated, fails: with a schema description that itself holds
    placeholder tokens the rendered instructions keep a placeholder and
    lose the schema description. *)
Lemma rendering_keeps_placeholder_of_schema :
  str_contains schema_placeholder demo_template = true /\
  str_contains date_placeholder demo_template = true /\
  trace (fst (initialize
                (demo_world true demo_template braced_schema
                   (Ok tt) (Ok tt) (Ok tt) (Ok tt))
                demo_config initial_state)) !! 11 =
    Some (ECreateAgent
            (create_agent_kwargs demo_config
               "Schema: 2024-05-01{database_schema_string}, Date: 2024-05-01"
               [functions; CodeInterpreterTool; FileSearchTool ["vs_1"]])) /\
  str_contains schema_placeholder
    "Schema: 2024-05-01{database_schema_string}, Date: 2024-05-01" = true /\
  str_contains braced_schema
    "Schema: 2024-05-01{database_schema_string}, Date: 2024-05-01" = false.
Proof. repeat split. Qed.

(** A brace-free schema description can fail as well, when it is a
    fragment of a placeholder that the template completes. *)
Example rendering_loses_fragment_schema :
  str_contains schema_placeholder fragment_template = true /\
  str_contains date_placeholder fragment_template = true /\
  render_instructions fragment_template fragment_schema demo_date =
    "2024-05-012024-05-01" /\
  str_contains fragment_schema "2024-05-012024-05-01" = false.
Proof. repeat split. Qed.

(** C3. Of the failures of the two deletion calls, [cleanup] swallows
    those that are an [AttributeError] and no other: after a swallowed
    failure it goes on with its remaining steps as after a normal return,
    and any other failure leaves [cleanup] at once. *)
Theorem cleanup_tolerates_only_missing_delete w agent thread st e :
  (threads_delete w (trace st) (thread_id thread) = Raise e ->
   delete_thread w thread st =
     (record (EThreadsDelete (thread_id thread)) st,
      if isinstance e AttributeError then Ok tt else Raise e) /\
   cleanup w agent thread st =
     if isinstance e AttributeError
     then (delete_agent w agent >>
           call EDbClose (db_close w) >>
           call EClientClose (client_close w))
            (record (EThreadsDelete (thread_id thread)) st)
     else (record (EThreadsDelete (thread_id thread)) st, Raise e)) /\
  (agents_delete w (trace st) (agent_id agent) = Raise e ->
   delete_agent w agent st =
     (record (EAgentsDelete (agent_id agent)) st,
      if isinstance e AttributeError then Ok tt else Raise e) /\
   forall st0,
     delete_thread w thread st0 = (st, Ok tt) ->
     cleanup w agent thread st0 =
       if isinstance e AttributeError
       then (call EDbClose (db_close w) >>
             call EClientClose (client_close w))
              (record (EAgentsDelete (agent_id agent)) st)
       else (record (EAgentsDelete (agent_id agent)) st, Raise e)).
Proof.
  split; intros Hraise.
  - assert (Hstep : delete_thread w thread st =
              (record (EThreadsDelete (thread_id thread)) st,
               if isinstance e AttributeError then Ok tt else Raise e)).
    { by rewrite delete_thread_run, Hraise. }
    split; [done|]. unfold cleanup.
    destruct (isinstance e AttributeError).
    + by rewrite (bind_ok _ _ _ _ _ Hstep).
    + by rewrite (bind_raise _ _ _ _ _ Hstep).
  - assert (Hstep : delete_agent w agent st =
              (record (EAgentsDelete (agent_id agent)) st,
               if isinstance e AttributeError then Ok tt else Raise e)).
    { by rewrite delete_agent_run, Hraise. }
    split; [done|]. intros st0 Hthread. unfold cleanup.
    rewrite (bind_ok _ _ _ _ _ Hthread).
    destruct (isinstance e AttributeError).
    + by rewrite (bind_ok _ _ _ _ _ Hstep).
    + by rewrite (bind_raise _ _ _ _ _ Hstep).
Qed.

Lemma cleanup_tolerates_only_missing_delete_witness :
  cleanup (demo_world true demo_template demo_schema (Ok tt) (Ok tt)
             (Raise no_delete) (Raise service_error))
    demo_agent demo_thread initial_state =
  (extend [EThreadsDelete "thread_1"; EAgentsDelete "asst_1"] initial_state,
   Raise service_error).
Proof.
  pose (w := demo_world true demo_template demo_schema (Ok tt) (Ok tt)
               (Raise no_delete) (Raise service_error)).
  destruct (cleanup_tolerates_only_missing_delete w demo_agent demo_thread
              initial_state no_delete) as [Hthread _].
  destruct (Hthread eq_refl) as [Hstep _].
  destruct (cleanup_tolerates_only_missing_delete w demo_agent demo_thread
              (record (EThreadsDelete "thread_1") initial_state) service_error)
    as [_ Hagent].
  destruct (Hagent eq_refl) as [_ Hrest].
  exact (Hrest initial_state Hstep).
Defined.

(** C9. When the thread deletion fails with anything but an
    [AttributeError], the failure leaves [cleanup]: the only call made is
    the thread deletion, so the agent deletion and the two closing calls
    are skipped. *)
Theorem thread_delete_failure_skips_rest w agent thread st e :
  threads_delete w (trace st) (thread_id thread) = Raise e ->
  isinstance e AttributeError = false ->
  cleanup w agent thread st =
    (record (EThreadsDelete (thread_id thread)) st, Raise e) /\
  (forall evs,
     trace (fst (cleanup w agent thread st)) = trace st ++ evs ->
     evs = [EThreadsDelete (thread_id thread)]).
Proof.
  intros Hraise Hclass.
  assert (Hrun : cleanup w agent thread st =
            (record (EThreadsDelete (thread_id thread)) st, Raise e)).
  { unfold cleanup. apply bind_raise.
    by rewrite delete_thread_run, Hraise, Hclass. }
  split; [done|]. intros evs. rewrite Hrun. simpl.
  intros Hevs. by apply app_inv_head in Hevs.
Qed.

Lemma thread_delete_failure_skips_rest_witness :
  cleanup (demo_world true demo_template demo_schema (Ok tt) (Ok tt)
             (Raise service_error) (Ok tt))
    demo_agent demo_thread initial_state =
  (record (EThreadsDelete "thread_1") initial_state, Raise service_error).
Proof.
  apply (thread_delete_failure_skips_rest
           (demo_world true demo_template demo_schema (Ok tt) (Ok tt)
              (Raise service_error) (Ok tt))
           demo_agent demo_thread initial_state service_error);
    reflexivity.
Defined.

(** C4. Whenever posting the message, opening the stream or draining it
    raises an [Exception], [post_message] logs it and returns normally;
    the calls of the turn were made at most once each, and the loop goes
    on with the next prompt. *)
Theorem post_message_catches_turn_failures w agent thread content st st1 e :
  post_message_body w (thread_id thread) content agent thread st = (st1, Raise e) ->
  isinstance e Exception = true ->
  post_message w (thread_id thread) content agent thread st =
    (record (ELogPurple ("An error occurred posting the message: " +:+ py_str e)) st1,
     Ok tt) /\
  (exists calls,
     trace st1 =
       trace st ++ EMessagesCreate (thread_id thread) "user" content :: calls /\
     calls `prefix_of`
       [ERunsStream (thread_id thread) (agent_id agent); EUntilDone]) /\
  (forall st0 rest,
     st = extend [EPrint newline; EInput (input_prompt w)] st0 ->
     str_lower content <> "exit" ->
     content <> "" ->
     main_loop w agent thread (content :: rest) st0 =
     main_loop w agent thread rest
       (record (ELogPurple ("An error occurred posting the message: " +:+ py_str e))
          st1)).
Proof.
  intros Hbody Hclass.
  assert (Hpost : post_message w (thread_id thread) content agent thread st =
            (record (ELogPurple ("An error occurred posting the message: "
                                 +:+ py_str e)) st1, Ok tt)).
  { unfold post_message, try_except. by rewrite Hbody, Hclass. }
  split; [done|]. split.
  - by apply (post_message_body_calls w _ content agent thread st st1 (Raise e)).
  - intros st0 rest -> Hexit Hempty. rewrite main_loop_cons.
    destruct (String.eqb_spec (str_lower content) "exit") as [|_]; [done|].
    destruct (str_falsy content) eqn:Hfalsy.
    + by apply str_falsy_empty in Hfalsy.
    + by rewrite (bind_ok _ _ _ _ _ Hpost).
Qed.

(** Where a turn can fail: at the post, at the stream or at the drain. *)
Lemma post_message_body_failure w tid content agent thread st st1 e :
  post_message_body w tid content agent thread st = (st1, Raise e) <->
  (messages_create w (trace st) tid content = Raise e /\
   st1 = record (EMessagesCreate tid "user" content) st) \/
  (exists u, messages_create w (trace st) tid content = Ok u /\
   runs_stream w (trace st ++ [EMessagesCreate tid "user" content])
     (thread_id thread) (agent_id agent) = Raise e /\
   st1 = extend [EMessagesCreate tid "user" content;
                 ERunsStream (thread_id thread) (agent_id agent)] st) \/
  (exists u u', messages_create w (trace st) tid content = Ok u /\
   runs_stream w (trace st ++ [EMessagesCreate tid "user" content])
     (thread_id thread) (agent_id agent) = Ok u' /\
   until_done w (trace st ++ [EMessagesCreate tid "user" content;
                              ERunsStream (thread_id thread) (agent_id agent)])
     = Raise e /\
   st1 = extend [EMessagesCreate tid "user" content;
                 ERunsStream (thread_id thread) (agent_id agent);
                 EUntilDone] st).
Proof.
  rewrite post_message_body_run. simpl.
  rewrite !record_extend, !extend_extend. simpl. rewrite <-!app_assoc. simpl.
  destruct (messages_create _ _ _ _) as [u|e1].
  - destruct (runs_stream _ _ _ _) as [u'|e2].
    + split.
      * intros [= <- He]. right. right. by exists u, u'.
      * intros [[? _]|[(? & ? & ? & _)|(? & ? & _ & _ & He & ->)]]; try done.
        by rewrite He.
    + split.
      * intros [= <- <-]. right. left. by exists u.
      * intros [[? _]|[(? & _ & [= <-] & ->)|(? & ? & _ & ? & _)]]; done.
  - split.
    + intros [= <- <-]. by left.
    + intros [[[= <-] ->]|[(? & ? & _)|(? & ? & ? & _)]]; done.
Qed.

Lemma post_message_catches_turn_failures_witness :
  main_loop (demo_world true demo_template demo_schema (Raise service_error)
               (Ok tt) (Ok tt) (Ok tt))
    demo_agent demo_thread ["total sales?"; "exit"] initial_state =
  (extend [EPrint newline; EInput "Enter your query (type exit to finish): ";
           EMessagesCreate "thread_1" "user" "total sales?";
           ELogPurple "An error occurred posting the message: 503";
           EPrint newline; EInput "Enter your query (type exit to finish): "]
     initial_state,
   Ok tt).
Proof.
  set (w := demo_world true demo_template demo_schema (Raise service_error)
              (Ok tt) (Ok tt) (Ok tt)).
  pose (asked := extend [EPrint newline; EInput (input_prompt w)] initial_state).
  destruct (post_message_catches_turn_failures w demo_agent demo_thread
              "total sales?" asked
              (record (EMessagesCreate "thread_1" "user" "total sales?") asked)
              service_error eq_refl eq_refl) as (_ & _ & Hloop).
  rewrite (Hloop initial_state ["exit"] eq_refl); [reflexivity|done|done].
Defined.

(** C5. When the instructions file is missing, [initialize] never
    returns a pair and [main] neither prompts nor creates anything
    remote; once the steps before the check have passed, the failure is
    the [FileNotFoundError], logged by [initialize] and by [main], and
    [main] returns after a single attempt. *)
Theorem missing_instructions_file_aborts w cfg stdin st :
  is_file w (instructions_path w) = false ->
  (forall created, snd (initialize w cfg st) <> Ok created) /\
  emits (fun ev => is_conversation ev = false) (main w cfg stdin) /\
  (forall vs opened schema,
     create_vector_store w = Ok vs ->
     db_connect w = Ok opened ->
     db_info w = Ok schema ->
     snd (initialize w cfg st) = Raise (file_not_found w) /\
     main w cfg stdin st =
       (extend
          [ ELogError ("An error occurred initializing the agent: "
                       +:+ py_str (file_not_found w));
            ELogError "Please ensure the instructions file exists and the database is accessible.";
            ELogError ("Initialization failed: " +:+ py_str (file_not_found w));
            EPrint "Initialization failed. Check logs and configuration, then try again." ]
          (after_prelude st vs opened),
        Ok tt)).
Proof.
  intros Hfile. split; [|split].
  - intros created Hret.
    apply (initialize_never_returns_without_file w cfg created Hfile).
    by exists st.
  - by apply main_no_conversation_without_file.
  - intros vs opened schema Hvs Hconn Hinfo. split.
    + by rewrite (initialize_without_file w cfg st vs opened schema).
    + by apply (main_without_file w cfg stdin st vs opened schema).
Qed.

Lemma missing_instructions_file_aborts_witness :
  main (demo_world false demo_template demo_schema (Ok tt) (Ok tt) (Ok tt) (Ok tt))
    demo_config ["total sales?"] initial_state =
  (extend
     [ ELogError "An error occurred initializing the agent: Instructions file not found: /app/src/workshop/instructions/instructions_file_search.txt";
       ELogError "Please ensure the instructions file exists and the database is accessible.";
       ELogError "Initialization failed: Instructions file not found: /app/src/workshop/instructions/instructions_file_search.txt";
       EPrint "Initialization failed. Check logs and configuration, then try again." ]
     (after_prelude initial_state demo_store true),
   Ok tt).
Proof.
  set (w := demo_world false demo_template demo_schema (Ok tt) (Ok tt) (Ok tt) (Ok tt)).
  destruct (missing_instructions_file_aborts w demo_config ["total sales?"]
              initial_state eq_refl) as (_ & _ & Hrun).
  destruct (Hrun demo_store true demo_schema eq_refl eq_refl eq_refl) as [_ Hmain].
  exact Hmain.
Defined.

(** C6. A line that reads "exit" in any letter case ends the loop at
    once: nothing is posted, and [cleanup] runs next. *)
Theorem exit_ends_the_loop w cfg agent thread line rest st :
  str_lower line = "exit" ->
  main_loop w agent thread (line :: rest) st =
    (extend [EPrint newline; EInput (input_prompt w)] st, Ok tt) /\
  try_finally (main_loop w agent thread (line :: rest)) (cleanup w agent thread) st =
    cleanup w agent thread (extend [EPrint newline; EInput (input_prompt w)] st) /\
  (forall st0,
     initialize w cfg st0 = (st, Ok (agent, thread)) ->
     main w cfg (line :: rest) st0 =
     cleanup w agent thread (extend [EPrint newline; EInput (input_prompt w)] st)).
Proof.
  intros Hexit.
  assert (Hloop : main_loop w agent thread (line :: rest) st =
            (extend [EPrint newline; EInput (input_prompt w)] st, Ok tt)).
  { rewrite main_loop_cons, Hexit. done. }
  split; [done|]. split.
  - by apply try_finally_ok.
  - intros st0 Hinit. unfold main, bind at 1, try_except, bind at 1.
    rewrite Hinit. simpl. by apply try_finally_ok.
Qed.

Lemma exit_ends_the_loop_witness :
  main calm_world demo_config ["ExIt"; "total sales?"] initial_state =
  cleanup calm_world demo_agent demo_thread
    (extend [EPrint newline; EInput (input_prompt calm_world)]
       (fst (initialize calm_world demo_config initial_state))).
Proof.
  destruct (exit_ends_the_loop calm_world demo_config demo_agent demo_thread
              "ExIt" ["total sales?"]
              (fst (initialize calm_world demo_config initial_state)) eq_refl)
    as (_ & _ & Hmain).
  exact (Hmain initial_state eq_refl).
Defined.

(** C7. An empty line posts nothing: the loop goes straight to its next
    iteration, which opens with the prompt again. *)
Theorem empty_line_reprompts w agent thread rest st :
  main_loop w agent thread ("" :: rest) st =
  main_loop w agent thread rest
    (extend [EPrint newline; EInput (input_prompt w)] st) /\
  exists evs,
    trace (fst (main_loop w agent thread ("" :: rest) st)) =
    trace st ++
      [EPrint newline; EInput (input_prompt w);
       EPrint newline; EInput (input_prompt w)] ++ evs.
Proof.
  assert (Hloop : main_loop w agent thread ("" :: rest) st =
            main_loop w agent thread rest
              (extend [EPrint newline; EInput (input_prompt w)] st)).
  { by rewrite main_loop_cons. }
  split; [done|]. rewrite Hloop.
  destruct (main_loop_prompts w agent thread rest
              (extend [EPrint newline; EInput (input_prompt w)] st)) as [evs ->].
  exists evs. simpl. by rewrite <-app_assoc.
Qed.

(** C8. Loading the module fails with a [KeyError] exactly when
    PROJECT_ENDPOINT is unset, before anything else happens; an unset
    MODEL_DEPLOYMENT_NAME is read as [None] and fails nothing here; the
    ENVIRONMENT tag falls back to "local". *)
Theorem environment_contract w stdin :
  (environ w !! "PROJECT_ENDPOINT" = None ->
   run_program w stdin = (initial_state, Raise (Exn KeyError "'PROJECT_ENDPOINT'"))) /\
  (forall endpoint,
     environ w !! "PROJECT_ENDPOINT" = Some endpoint ->
     module_init (environ w) =
       Ok {| API_DEPLOYMENT_NAME := environ w !! "MODEL_DEPLOYMENT_NAME";
             PROJECT_ENDPOINT := endpoint |} /\
     module_init (delete "MODEL_DEPLOYMENT_NAME" (environ w)) =
       Ok {| API_DEPLOYMENT_NAME := None; PROJECT_ENDPOINT := endpoint |}) /\
  deployment_environment (delete "ENVIRONMENT" (environ w)) = "local" /\
  (forall tag,
     environ w !! "ENVIRONMENT" = Some tag ->
     deployment_environment (environ w) = tag).
Proof.
  split; [|split; [|split]].
  - intros Hnone. unfold run_program, module_init. by rewrite Hnone.
  - intros endpoint Hendpoint. unfold module_init, getenv. split.
    + by rewrite Hendpoint.
    + rewrite lookup_delete_ne by done. rewrite Hendpoint.
      by rewrite lookup_delete_eq.
  - unfold deployment_environment, getenv_default. by rewrite lookup_delete_eq.
  - intros tag Htag. unfold deployment_environment, getenv_default. by rewrite Htag.
Qed.

Lemma environment_contract_witness :
  run_program
    (World ∅ "" "" demo_date "/app/src/workshop" (fun _ => true)
       (fun _ => Ok demo_template) (Ok demo_store) (Ok true) (Ok demo_schema)
       (Ok tt) (fun _ => Ok demo_agent) (Ok demo_thread)
       (fun _ _ _ => Ok tt) (fun _ _ _ => Ok tt) (fun _ => Ok tt)
       (fun _ _ => Ok tt) (fun _ _ => Ok tt) (fun _ => Ok tt) (fun _ => Ok tt))
    ["total sales?"] =
    (initial_state, Raise (Exn KeyError "'PROJECT_ENDPOINT'")) /\
  module_init demo_environ = Ok demo_config /\
  deployment_environment (<["ENVIRONMENT" := "container"]> demo_environ) = "container".
Proof.
  split; [|split].
  - by apply environment_contract.
  - destruct (environment_contract calm_world []) as (_ & Hset & _).
    destruct (Hset "https://contoso.example/api/projects/p1" eq_refl) as [Hinit _].
    exact Hinit.
  - destruct (environment_contract
                (World (<["ENVIRONMENT" := "container"]> demo_environ) "" ""
                   demo_date "" (fun _ => true) (fun _ => Ok demo_template)
                   (Ok demo_store) (Ok true) (Ok demo_schema) (Ok tt)
                   (fun _ => Ok demo_agent) (Ok demo_thread)
                   (fun _ _ _ => Ok tt) (fun _ _ _ => Ok tt) (fun _ => Ok tt)
                   (fun _ _ => Ok tt) (fun _ _ => Ok tt) (fun _ => Ok tt)
                   (fun _ => Ok tt)) []) as (_ & _ & _ & Htag).
    by apply Htag.
Defined.

(** The first call of a turn is the message post. *)
Lemma post_message_posts_first {A} w tid content agent thread (k : M A) st :
  emits (fun _ => True) k ->
  exists evs,
    trace (fst (bind (post_message w tid content agent thread) (fun _ => k) st)) =
    trace st ++ EMessagesCreate tid "user" content :: evs.
Proof.
  intros Hk. unfold bind, post_message, try_except.
  destruct (post_message_body w tid content agent thread st) as [st1 r] eqn:Hbody.
  destruct (post_message_body_calls _ _ _ _ _ _ _ _ Hbody) as (calls & Htrace & _).
  assert (forall st2 (o : outcome unit), trace st2 = trace st1 ->
            exists evs, trace (fst (match o with
                                    | Ok _ => k st2
                                    | Raise e => (st2, @Raise A e)
                                    end)) =
                        trace st ++ EMessagesCreate tid "user" content :: evs)
    as Hnext.
  { intros st2 [u|e] Hst2; simpl.
    - destruct (Hk st2) as (evs & -> & _). exists (calls ++ evs).
      by rewrite Hst2, Htrace, <-app_assoc.
    - exists calls. by rewrite Hst2. }
  destruct r as [u|e].
  - by apply (Hnext st1 (Ok u)).
  - destruct (isinstance e Exception).
    + unfold log_msg_purple, emit. simpl.
      destruct (Hk (record (ELogPurple ("An error occurred posting the message: "
                                       +:+ py_str e)) st1))
        as (evs & -> & _).
      exists (calls ++ ELogPurple ("An error occurred posting the message: "
                                   +:+ py_str e) :: evs).
      simpl. by rewrite Htrace, <-!app_assoc.
    + by exists calls.
Qed.

(** C10. A line that holds more than the word "exit" (a blank before or
    after it, for instance) does not end the loop: it is posted like any
    other message and the loop goes on; the loop ends at a line only when
    its lower-case form is exactly "exit". *)
Theorem padded_exit_is_posted w agent thread before core after rest st :
  str_lower core = "exit" ->
  before +:+ after <> "" ->
  str_lower (before +:+ core +:+ after) <> "exit" /\
  main_loop w agent thread ((before +:+ core +:+ after) :: rest) st =
    bind (post_message w (thread_id thread) (before +:+ core +:+ after) agent thread)
         (fun _ => main_loop w agent thread rest)
         (extend [EPrint newline; EInput (input_prompt w)] st) /\
  (exists evs,
     trace (fst (main_loop w agent thread ((before +:+ core +:+ after) :: rest) st)) =
     trace st ++
       [EPrint newline; EInput (input_prompt w);
        EMessagesCreate (thread_id thread) "user" (before +:+ core +:+ after)] ++ evs) /\
  (forall line,
     str_lower line <> "exit" ->
     main_loop w agent thread (line :: rest) st =
       (if str_falsy line then main_loop w agent thread rest
        else bind (post_message w (thread_id thread) line agent thread)
                  (fun _ => main_loop w agent thread rest))
         (extend [EPrint newline; EInput (input_prompt w)] st)).
Proof.
  intros Hcore Hpad.
  assert (Hlen : String.length (before +:+ core +:+ after) =
                 String.length before + (4 + String.length after)).
  { by rewrite !string_length_app, (str_lower_exit_length core Hcore). }
  assert (Hpadded : String.length before + String.length after <> 0).
  { destruct before, after; simpl in *; try done; lia. }
  assert (Hline : str_lower (before +:+ core +:+ after) <> "exit").
  { intros Hexit. apply str_lower_exit_length in Hexit. lia. }
  assert (Hother : forall line,
            str_lower line <> "exit" ->
            main_loop w agent thread (line :: rest) st =
              (if str_falsy line then main_loop w agent thread rest
               else bind (post_message w (thread_id thread) line agent thread)
                         (fun _ => main_loop w agent thread rest))
                (extend [EPrint newline; EInput (input_prompt w)] st)).
  { intros line Hne. rewrite main_loop_cons.
    by destruct (String.eqb_spec (str_lower line) "exit"). }
  assert (Hposted : main_loop w agent thread ((before +:+ core +:+ after) :: rest) st =
            bind (post_message w (thread_id thread) (before +:+ core +:+ after)
                    agent thread)
                 (fun _ => main_loop w agent thread rest)
                 (extend [EPrint newline; EInput (input_prompt w)] st)).
  { rewrite (Hother _ Hline).
    destruct (str_falsy _) eqn:Hfalsy; [|done].
    apply str_falsy_empty in Hfalsy. rewrite Hfalsy in Hlen. simpl in Hlen. lia. }
  split; [done|]. split; [done|]. split; [|done].
  rewrite Hposted.
  destruct (post_message_posts_first w (thread_id thread)
              (before +:+ core +:+ after) agent thread
              (main_loop w agent thread rest)
              (extend [EPrint newline; EInput (input_prompt w)] st))
    as [evs ->].
  { apply main_loop_emits. by intros []. }
  exists evs. simpl. by rewrite <-app_assoc.
Qed.

Lemma padded_exit_is_posted_witness :
  main_loop calm_world demo_agent demo_thread [" exit"; "exit"] initial_state =
  (extend [EPrint newline; EInput "Enter your query (type exit to finish): ";
           EMessagesCreate "thread_1" "user" " exit";
           ERunsStream "thread_1" "asst_1"; EUntilDone;
           EPrint newline; EInput "Enter your query (type exit to finish): "]
     initial_state,
   Ok tt).
Proof.
  destruct (padded_exit_is_posted calm_world demo_agent demo_thread
              " " "exit" "" ["exit"] initial_state eq_refl)
    as (_ & Hposted & _); [discriminate|].
  exact Hposted.
Defined.

(** * Further properties *)

(** ** Rendering as substitution *)

Section ReplaceSegments.
Context {A : Type} `{EqDecision A}.
Implicit Types old new x rest s : list A.

(** A segment without the first character of [old] is copied. *)
Lemma replace_go_text old new a o x rest :
  old = a :: o -> a ∉ x ->
  replace_go old new 0 (x ++ rest) = x ++ replace_go old new 0 rest.
Proof.
  intros -> Hx. induction x as [|c x IH]; [done|].
  apply not_elem_of_cons in Hx as [Hne Hx].
  rewrite <-app_comm_cons, replace_go_keep, IH; [done|done|].
  simpl. by destruct (decide (a = c)).
Qed.

(** So is a segment at which [old] does not start and whose tail lacks
    the first character of [old]. *)
Lemma replace_go_token old new a o c x rest :
  old = a :: o -> a ∉ x ->
  starts_with old (c :: x ++ rest) = false ->
  replace_go old new 0 ((c :: x) ++ rest) = (c :: x) ++ replace_go old new 0 rest.
Proof.
  intros Hold Hx Hc. rewrite <-app_comm_cons, replace_go_keep by done.
  by rewrite (replace_go_text old new a o).
Qed.

(** A string in which [old] does not occur is left as it is. *)
Lemma replace_go_absent old new s :
  contains old s = false -> replace_go old new 0 s = s.
Proof.
  induction s as [|c s IH]; [done|]. intros Hs.
  simpl in Hs. apply orb_false_iff in Hs as [Hc Hs].
  by rewrite replace_go_keep, IH.
Qed.
End ReplaceSegments.

Lemma chars_app a b : chars (a +:+ b) = chars a ++ chars b.
Proof. unfold chars. induction a as [|c a IH]; simpl; [done|]. by rewrite IH. Qed.

Lemma chars_inj a b : chars a = chars b -> a = b.
Proof. intros Hab. by rewrite <-(of_chars_chars a), Hab, of_chars_chars. Qed.

Lemma str_replace_absent s old new :
  old <> "" -> str_contains old s = false -> str_replace s old new = s.
Proof.
  intros Hold Hs. unfold str_replace, replace_all.
  destruct (chars old) as [|a o] eqn:Ho.
  - destruct old; [done|discriminate].
  - unfold str_contains in Hs. rewrite Ho in Hs.
    by rewrite replace_go_absent, of_chars_chars.
Qed.

(** X2. A template in which neither placeholder occurs is passed on
    unchanged, whatever the schema description and the date. *)
Theorem render_without_placeholders template schema d :
  str_contains schema_placeholder template = false ->
  str_contains date_placeholder template = false ->
  render_instructions template schema d = template.
Proof.
  intros HD HC. unfold render_instructions.
  rewrite (str_replace_absent template schema_placeholder) by done.
  by apply str_replace_absent.
Qed.

Lemma render_without_placeholders_witness :
  render_instructions "Use {braces} and 100% care." "tbl(id)" demo_date =
  "Use {braces} and 100% care.".
Proof. apply render_without_placeholders; reflexivity. Defined.

Lemma join_cons a l : join (a :: l) = a +:+ join l.
Proof. done. Qed.

Lemma date_placeholder_inert rest :
  starts_with (chars schema_placeholder) (chars date_placeholder ++ rest) = false.
Proof. done. Qed.

(** The template after the first substitution. *)
Lemma schema_pass ps schema :
  forallb plain_piece ps = true ->
  replace_go (chars schema_placeholder) (chars schema) 0 (chars (template_of ps)) =
  chars (join (map (fun p => match p with
                             | SchemaSlot => schema
                             | _ => piece_source p
                             end) ps)).
Proof.
  intros Hps. induction ps as [|p ps IH]; [done|].
  apply andb_true_iff in Hps as [Hp Hps]. specialize (IH Hps).
  unfold template_of in *. rewrite !map_cons, !join_cons, !chars_app.
  destruct p as [text| |]; cbn [piece_source].
  - rewrite (replace_go_text _ _ "{"%char (chars "database_schema_string}"));
      [by rewrite IH|done|].
    apply contains_single. by apply negb_true_iff in Hp.
  - rewrite replace_go_match by done. by rewrite IH.
  - rewrite (replace_go_token _ _ "{"%char (chars "database_schema_string}")
               "{"%char (chars "current_date}"));
      [by rewrite IH|done| |apply date_placeholder_inert].
    by apply contains_single.
Qed.

Lemma date_pass ps schema d :
  forallb plain_piece ps = true ->
  str_contains "{" schema = false ->
  replace_go (chars date_placeholder) (strftime_Ymd_chars d) 0
    (chars (join (map (fun p => match p with
                                | SchemaSlot => schema
                                | _ => piece_source p
                                end) ps))) =
  chars (filled ps schema d).
Proof.
  intros Hps Hschema. induction ps as [|p ps IH]; [done|].
  apply andb_true_iff in Hps as [Hp Hps]. specialize (IH Hps).
  unfold filled in *. rewrite !map_cons, !join_cons, !chars_app.
  destruct p as [text| |]; cbn [piece_source piece_filled].
  - rewrite (replace_go_text _ _ "{"%char (chars "current_date}"));
      [by rewrite IH|done|].
    apply contains_single. by apply negb_true_iff in Hp.
  - rewrite (replace_go_text _ _ "{"%char (chars "current_date}"));
      [by rewrite IH|done|].
    by apply contains_single.
  - rewrite replace_go_match by done. rewrite IH.
    unfold strftime_Ymd. by rewrite chars_of_chars.
Qed.

(** X1. For a template made of literal texts without an opening brace
    and of placeholder slots, and a schema description without an opening
    brace, rendering is substitution: every schema slot becomes the schema
    description, every date slot the date, and the texts stay. *)
Theorem render_is_substitution ps schema d :
  forallb plain_piece ps = true ->
  str_contains "{" schema = false ->
  render_instructions (template_of ps) schema d = filled ps schema d.
Proof.
  intros Hps Hschema. apply chars_inj.
  rewrite render_instructions_chars, schema_pass by done.
  by apply date_pass.
Qed.

Lemma render_is_substitution_witness :
  render_instructions
    (template_of [Text "Today is "; DateSlot; Text ". Tables: "; SchemaSlot;
                  Text " (again: "; SchemaSlot; Text ")"])
    "sales(id, region)" demo_date =
  "Today is 2024-05-01. Tables: sales(id, region) (again: sales(id, region))".
Proof. apply render_is_substitution; reflexivity. Defined.

(** ** Startup *)

(** X3. When the vector store cannot be built, the two tools added
    before it stay in the shared toolset, [initialize] fails without
    logging (the call is outside its [try]), and [main] logs an
    [Exception] once and returns normally; anything else escapes [main]. *)
Theorem vector_store_failure w cfg stdin st e :
  create_vector_store w = Raise e ->
  add_agent_tools w st = (after_failed_store st, Raise e) /\
  initialize w cfg st = (after_failed_store st, Raise e) /\
  main w cfg stdin st =
    if isinstance e Exception
    then (extend
            [ ELogError ("Initialization failed: " +:+ py_str e);
              EPrint "Initialization failed. Check logs and configuration, then try again." ]
            (after_failed_store st),
          Ok tt)
    else (after_failed_store st, Raise e).
Proof.
  intros Hstore.
  assert (Htools : add_agent_tools w st = (after_failed_store st, Raise e)).
  { unfold add_agent_tools, bind, toolset_add, call. simpl. rewrite Hstore.
    unfold after_failed_store, record. simpl. by rewrite <-app_assoc. }
  assert (Hinit : initialize w cfg st = (after_failed_store st, Raise e)).
  { unfold initialize. by apply bind_raise. }
  split; [done|]. split; [done|].
  unfold main, bind at 1, try_except, bind at 1. rewrite Hinit.
  destruct (isinstance e Exception); [|done].
  unfold main_except, bind, logger_error, print, emit, ret. simpl.
  by rewrite !record_extend, !extend_extend.
Qed.

Lemma vector_store_failure_witness :
  main (startup_world (Raise service_error) true (Ok demo_thread))
    demo_config ["total sales?"] initial_state =
  (extend
     [ ELogError "Initialization failed: 503";
       EPrint "Initialization failed. Check logs and configuration, then try again." ]
     (after_failed_store initial_state),
   Ok tt).
Proof.
  destruct (vector_store_failure
              (startup_world (Raise service_error) true (Ok demo_thread))
              demo_config ["total sales?"] initial_state service_error eq_refl)
    as (_ & _ & Hmain).
  exact Hmain.
Defined.

(** X4. When the database connection is not there, [initialize] fails
    with a [RuntimeError] right after the file check: the instructions
    are not read and no agent is created. *)
Theorem database_unavailable w cfg st vs schema :
  create_vector_store w = Ok vs ->
  db_connect w = Ok false ->
  db_info w = Ok schema ->
  is_file w (instructions_path w) = true ->
  initialize w cfg st =
  (extend
     [ ELogError "An error occurred initializing the agent: Database connection unavailable. Check SQLite DB path and permissions.";
       ELogError "Please ensure the instructions file exists and the database is accessible." ]
     (after_prelude st vs false),
   Raise (Exn RuntimeError
            "Database connection unavailable. Check SQLite DB path and permissions.")).
Proof.
  intros Hvs Hconn Hinfo Hfile.
  rewrite (initialize_starts w cfg st vs false schema) by done.
  unfold try_except, initialize_body. rewrite Hfile. simpl.
  unfold initialize_except, bind, logger_error, emit, raise. simpl.
  by rewrite !record_extend, extend_extend.
Qed.

Lemma database_unavailable_witness :
  snd (initialize (startup_world (Ok demo_store) false (Ok demo_thread))
         demo_config initial_state) =
  Raise (Exn RuntimeError
           "Database connection unavailable. Check SQLite DB path and permissions.").
Proof.
  by rewrite (database_unavailable
                (startup_world (Ok demo_store) false (Ok demo_thread))
                demo_config initial_state demo_store demo_schema).
Defined.

(** X5. When every step succeeds, [initialize] returns the agent and the
    thread after exactly these calls, in this order: the agent is created
    once, with the three tools in the order function tool, code
    interpreter, file search over the new vector store, and before the
    thread. *)
Theorem initialize_succeeds w cfg st vs schema template agent thread :
  create_vector_store w = Ok vs ->
  db_connect w = Ok true ->
  db_info w = Ok schema ->
  is_file w (instructions_path w) = true ->
  read_text w (instructions_path w) = Ok template ->
  enable_auto_function_calls w = Ok tt ->
  create_agent w
    (create_agent_kwargs cfg (render_instructions template schema (today w))
       (toolset st ++ [functions; CodeInterpreterTool; FileSearchTool [vs_id vs]])) =
    Ok agent ->
  threads_create w = Ok thread ->
  initialize w cfg st =
  (extend
     ([ EReadFile (instructions_path w);
        EPrint "Creating agent...";
        EEnableAutoFunctionCalls [fetch_sales_data];
        ECreateAgent
          (create_agent_kwargs cfg (render_instructions template schema (today w))
             (toolset st ++ [functions; CodeInterpreterTool; FileSearchTool [vs_id vs]]));
        EPrint ("Created agent, ID: " +:+ agent_id agent);
        EPrint ("Agent tools: " +:+ repr_list (default [] (agent_tools agent))) ] ++
      match agent_tool_resources agent with
      | Some r => [EPrint ("Tool resources: " +:+ r)]
      | None => []
      end ++
      [ EPrint "Creating thread...";
        EThreadsCreate;
        EPrint ("Created thread, ID: " +:+ thread_id thread) ])
     (after_prelude st vs true),
   Ok (agent, thread)).
Proof.
  intros Hvs Hconn Hinfo Hfile Hread Hauto Hagent Hthread.
  rewrite (initialize_starts w cfg st vs true schema) by done.
  unfold try_except, initialize_body. rewrite Hfile. simpl.
  unfold bind, call, print, emit, get, ret. simpl.
  rewrite Hread, Hauto. simpl. rewrite Hagent. simpl.
  destruct (agent_tool_resources agent) as [r|]; simpl;
    rewrite Hthread; unfold extend, record; simpl;
    by rewrite <-!app_assoc.
Qed.

Lemma initialize_succeeds_witness :
  snd (initialize calm_world demo_config initial_state) =
  Ok (demo_agent, demo_thread).
Proof.
  by rewrite (initialize_succeeds calm_world demo_config initial_state
                demo_store demo_schema demo_template demo_agent demo_thread).
Defined.

(** X18. When the remote service refuses to create the agent, no thread
    is created: [initialize] logs an [Exception] twice and raises it
    again; an exception of another kind passes unlogged. *)
Theorem agent_creation_failure w cfg st vs schema template e :
  create_vector_store w = Ok vs ->
  db_connect w = Ok true ->
  db_info w = Ok schema ->
  is_file w (instructions_path w) = true ->
  read_text w (instructions_path w) = Ok template ->
  enable_auto_function_calls w = Ok tt ->
  create_agent w
    (create_agent_kwargs cfg (render_instructions template schema (today w))
       (toolset st ++ [functions; CodeInterpreterTool; FileSearchTool [vs_id vs]])) =
    Raise e ->
  initialize w cfg st =
  (extend
     ([ EReadFile (instructions_path w);
        EPrint "Creating agent...";
        EEnableAutoFunctionCalls [fetch_sales_data];
        ECreateAgent
          (create_agent_kwargs cfg (render_instructions template schema (today w))
             (toolset st ++ [functions; CodeInterpreterTool; FileSearchTool [vs_id vs]])) ] ++
      if isinstance e Exception
      then [ ELogError ("An error occurred initializing the agent: " +:+ py_str e);
             ELogError "Please ensure the instructions file exists and the database is accessible." ]
      else [])
     (after_prelude st vs true),
   Raise e).
Proof.
  intros Hvs Hconn Hinfo Hfile Hread Hauto Hagent.
  rewrite (initialize_starts w cfg st vs true schema) by done.
  unfold try_except, initialize_body. rewrite Hfile. simpl.
  unfold bind, call, print, emit, get, ret. simpl.
  rewrite Hread, Hauto. simpl. rewrite Hagent.
  destruct (isinstance e Exception);
    unfold initialize_except, bind, logger_error, emit, raise, extend, record;
    simpl; by rewrite <-!app_assoc.
Qed.

Lemma agent_creation_failure_witness :
  snd (initialize
         (World demo_environ "" "" demo_date "/app/src/workshop" (fun _ => true)
            (fun _ => Ok demo_template) (Ok demo_store) (Ok true) (Ok demo_schema)
            (Ok tt) (fun _ => Raise service_error) (Ok demo_thread)
            (fun _ _ _ => Ok tt) (fun _ _ _ => Ok tt) (fun _ => Ok tt)
            (fun _ _ => Ok tt) (fun _ _ => Ok tt) (fun _ => Ok tt) (fun _ => Ok tt))
         demo_config initial_state) = Raise service_error.
Proof.
  by rewrite (agent_creation_failure
                (World demo_environ "" "" demo_date "/app/src/workshop" (fun _ => true)
                   (fun _ => Ok demo_template) (Ok demo_store) (Ok true)
                   (Ok demo_schema) (Ok tt) (fun _ => Raise service_error)
                   (Ok demo_thread) (fun _ _ _ => Ok tt) (fun _ _ _ => Ok tt)
                   (fun _ => Ok tt) (fun _ _ => Ok tt) (fun _ _ => Ok tt)
                   (fun _ => Ok tt) (fun _ => Ok tt))
                demo_config initial_state demo_store demo_schema demo_template
                service_error).
Defined.

Lemma initialize_no_cleanup w cfg :
  emits (fun ev => is_cleanup ev = false) (initialize w cfg).
Proof.
  unfold initialize, initialize_except, add_agent_tools, initialize_body.
  repeat emits_step; reflexivity.
Qed.

(** X6. When [initialize] fails, [main] makes none of the tear-down
    calls, whatever had been created by then: a remote agent whose thread
    could not be created is left behind, and the database and the client
    stay open. *)
Theorem failed_startup_skips_cleanup w cfg stdin st e evs :
  snd (initialize w cfg st) = Raise e ->
  trace (fst (main w cfg stdin st)) = trace st ++ evs ->
  Forall (fun ev => is_cleanup ev = false) evs.
Proof.
  intros Hfail Htrace.
  destruct (initialize_no_cleanup w cfg st) as (evs1 & Htr1 & Hevs1).
  destruct (initialize w cfg st) as [st1 r] eqn:Hinit. simpl in *. subst r.
  unfold main, bind at 1, try_except, bind at 1 in Htrace. rewrite Hinit in Htrace.
  destruct (isinstance e Exception).
  - unfold main_except, bind, logger_error, print, emit, ret in Htrace.
    simpl in Htrace. rewrite Htr1, <-!app_assoc in Htrace.
    apply app_inv_head in Htrace as <-.
    apply Forall_app. split; [done|]. by repeat constructor.
  - simpl in Htrace. rewrite Htr1 in Htrace.
    by apply app_inv_head in Htrace as <-.
Qed.

Lemma failed_startup_skips_cleanup_witness :
  Forall (fun ev => is_cleanup ev = false)
    (trace (fst (main (startup_world (Ok demo_store) true (Raise service_error))
                   demo_config ["exit"] initial_state))) /\
  trace (fst (main (startup_world (Ok demo_store) true (Raise service_error))
                demo_config ["exit"] initial_state)) !! 11 =
    Some (ECreateAgent
            (create_agent_kwargs demo_config "Schema: tbl(id), Date: 2024-05-01"
               [functions; CodeInterpreterTool; FileSearchTool ["vs_1"]])).
Proof.
  split; [|reflexivity].
  apply (failed_startup_skips_cleanup
           (startup_world (Ok demo_store) true (Raise service_error))
           demo_config ["exit"] initial_state service_error); reflexivity.
Defined.

(** X7. Once [initialize] has returned, [cleanup] runs however the loop
    ends: the thread deletion is the first call after the loop, and the
    failure that ended the loop, if any, leaves [main] after a [cleanup]
    that succeeded. *)
Theorem cleanup_always_runs w cfg stdin st st1 agent thread :
  initialize w cfg st = (st1, Ok (agent, thread)) ->
  fst (main w cfg stdin st) =
    fst (cleanup w agent thread (fst (main_loop w agent thread stdin st1))) /\
  (exists evs,
     trace (fst (main w cfg stdin st)) =
     trace (fst (main_loop w agent thread stdin st1)) ++
       EThreadsDelete (thread_id thread) :: evs) /\
  snd (main w cfg stdin st) =
    match snd (cleanup w agent thread (fst (main_loop w agent thread stdin st1))) with
    | Ok _ => snd (main_loop w agent thread stdin st1)
    | Raise e => Raise e
    end.
Proof.
  intros Hinit.
  assert (Hmain : main w cfg stdin st =
            try_finally (main_loop w agent thread stdin) (cleanup w agent thread) st1).
  { unfold main, bind at 1, try_except, bind at 1. by rewrite Hinit. }
  rewrite Hmain. unfold try_finally.
  destruct (main_loop w agent thread stdin st1) as [st2 r]. simpl.
  assert (exists evs, trace (fst (cleanup w agent thread st2)) =
                      trace st2 ++ EThreadsDelete (thread_id thread) :: evs)
    as [evs Hevs].
  { unfold cleanup.
    destruct (emits_bind (fun _ => True)
                (delete_agent w agent)
                (fun _ => call EDbClose (db_close w) >>
                          call EClientClose (client_close w))) with
      (st := record (EThreadsDelete (thread_id thread)) st2) as (evs & Hevs & _).
    { unfold delete_agent. repeat emits_step; done. }
    { intros _ _. repeat emits_step; done. }
    unfold bind at 1. rewrite delete_thread_run. simpl.
    destruct (match threads_delete w (trace st2) (thread_id thread) with
              | Ok u => Ok u
              | Raise e => if isinstance e AttributeError then Ok tt else Raise e
              end) as [u|e].
    - exists evs. rewrite Hevs. simpl. by rewrite <-app_assoc.
    - by exists []. }
  destruct (cleanup w agent thread st2) as [st3 [u|e]]; simpl in *;
    (split; [done|]); (split; [by exists evs|done]).
Qed.

Lemma cleanup_always_runs_witness :
  snd (main calm_world demo_config ["total sales?"] initial_state) =
    Raise (Exn EOFError "EOF when reading a line") /\
  EThreadsDelete "thread_1" ∈
    trace (fst (main calm_world demo_config ["total sales?"] initial_state)).
Proof.
  destruct (cleanup_always_runs calm_world demo_config ["total sales?"]
              initial_state
              (fst (initialize calm_world demo_config initial_state))
              demo_agent demo_thread eq_refl) as (_ & [evs Hevs] & Hres).
  split; [exact Hres|].
  rewrite Hevs. apply elem_of_app. right. apply list_elem_of_here.
Defined.

(** ** The conversation *)

Lemma posted_app evs evs' : posted (evs ++ evs') = posted evs ++ posted evs'.
Proof. unfold posted. apply flat_map_app. Qed.

(** In a gentle world a turn always returns, having posted its message
    exactly once. *)
Lemma post_message_gentle w tid content agent thread st :
  gentle w ->
  exists st' evs,
    post_message w tid content agent thread st = (st', Ok tt) /\
    trace st' = trace st ++ evs /\
    posted evs = [content].
Proof.
  intros (Hpost & Hstream & Hdrain).
  unfold post_message, try_except. rewrite post_message_body_run. simpl.
  destruct (messages_create _ _ _ _) as [[]|e] eqn:Hm.
  - destruct (runs_stream _ _ _ _) as [[]|e] eqn:Hs.
    + destruct (until_done _ _) as [[]|e] eqn:Hd.
      * eexists _, [_; _; _]. split; [done|]. simpl.
        by rewrite <-!app_assoc.
      * rewrite (Hdrain _ _ Hd). eexists _, [_; _; _; _]. split; [done|].
        simpl. by rewrite <-!app_assoc.
    + rewrite (Hstream _ _ _ _ Hs). eexists _, [_; _; _]. split; [done|].
      simpl. by rewrite <-!app_assoc.
  - rewrite (Hpost _ _ _ _ Hm). eexists _, [_; _]. split; [done|].
    simpl. by rewrite <-!app_assoc.
Qed.

(** X8. In a world whose conversation calls fail with [Exception]s only,
    the messages posted are exactly the non-empty lines read before the
    first exit line, once each and in order; the loop returns normally
    when there is an exit line and ends with [EOFError] otherwise. *)
Theorem conversation_summary w agent thread stdin st :
  gentle w ->
  exists evs,
    trace (fst (main_loop w agent thread stdin st)) = trace st ++ evs /\
    posted evs = turns stdin /\
    snd (main_loop w agent thread stdin st) =
      if existsb is_exit stdin then Ok tt
      else Raise (Exn EOFError "EOF when reading a line").
Proof.
  intros Hw. revert st. induction stdin as [|line rest IH]; intros st.
  - rewrite main_loop_eof. by exists [EPrint newline; EInput (input_prompt w)].
  - rewrite main_loop_cons. unfold turns. simpl. fold (is_exit line).
    destruct (is_exit line) eqn:Hexit; simpl.
    + by exists [EPrint newline; EInput (input_prompt w)].
    + destruct (str_falsy line) eqn:Hfalsy.
      * rewrite filter_cons_False by (simpl; congruence).
        destruct (IH (extend [EPrint newline; EInput (input_prompt w)] st))
          as (evs & Htrace & Hposted & Hres).
        exists ([EPrint newline; EInput (input_prompt w)] ++ evs).
        rewrite Htrace, Hres. simpl. by rewrite <-app_assoc.
      * rewrite filter_cons_True by done.
        destruct (post_message_gentle w (thread_id thread) line agent thread
                    (extend [EPrint newline; EInput (input_prompt w)] st) Hw)
          as (st' & evs1 & Hpost & Htr1 & Hposted1).
        rewrite (bind_ok _ _ _ _ _ Hpost).
        destruct (IH st') as (evs & Htrace & Hposted & Hres).
        exists ([EPrint newline; EInput (input_prompt w)] ++ evs1 ++ evs).
        rewrite Htrace, Hres, Htr1. simpl. rewrite <-!app_assoc.
        split; [done|]. split; [|done].
        change (posted (EPrint newline :: EInput (input_prompt w) :: evs1 ++ evs))
          with (posted (evs1 ++ evs)).
        by rewrite posted_app, Hposted1, Hposted.
Qed.

Lemma conversation_summary_witness :
  exists evs,
    trace (fst (main_loop
                  (demo_world true demo_template demo_schema (Raise service_error)
                     (Ok tt) (Ok tt) (Ok tt))
                  demo_agent demo_thread
                  ["first"; ""; "second"; "EXIT"; "third"] initial_state)) =
      trace initial_state ++ evs /\
    posted evs = ["first"; "second"] /\
    snd (main_loop
           (demo_world true demo_template demo_schema (Raise service_error)
              (Ok tt) (Ok tt) (Ok tt))
           demo_agent demo_thread
           ["first"; ""; "second"; "EXIT"; "third"] initial_state) = Ok tt.
Proof.
  apply (conversation_summary
           (demo_world true demo_template demo_schema (Raise service_error)
              (Ok tt) (Ok tt) (Ok tt))
           demo_agent demo_thread ["first"; ""; "second"; "EXIT"; "third"]).
  repeat split; simpl; intros; first [discriminate | by simplify_eq].
Defined.

(** X9. In any world the loop returns normally only at an exit line:
    without one among the input lines it ends with an exception. *)
Theorem loop_returns_only_on_exit w agent thread stdin st :
  snd (main_loop w agent thread stdin st) = Ok tt ->
  existsb is_exit stdin = true.
Proof.
  revert st. induction stdin as [|line rest IH]; intros st.
  - by rewrite main_loop_eof.
  - rewrite main_loop_cons. simpl. fold (is_exit line).
    destruct (is_exit line); [done|]. simpl.
    destruct (str_falsy line); [apply IH|].
    unfold bind.
    destruct (post_message _ _ _ _ _ _) as [st' [u|e]]; [apply IH|done].
Qed.

Lemma loop_returns_only_on_exit_witness :
  existsb is_exit ["total sales?"; "Exit"] = true.
Proof.
  apply (loop_returns_only_on_exit calm_world demo_agent demo_thread
           ["total sales?"; "Exit"] initial_state).
  reflexivity.
Defined.

(** X10. Whatever follows the first exit line is never read: the run of
    the loop does not depend on it. *)
Theorem input_after_exit_is_ignored w agent thread before line rest rest' st :
  is_exit line = true ->
  main_loop w agent thread (before ++ line :: rest) st =
  main_loop w agent thread (before ++ line :: rest') st.
Proof.
  intros Hexit. revert st. induction before as [|first before IH]; intros st.
  - simpl app. rewrite !main_loop_cons. unfold is_exit in Hexit. by rewrite Hexit.
  - rewrite <-!app_comm_cons, !main_loop_cons.
    destruct (String.eqb _ _); [done|].
    destruct (str_falsy first); [apply IH|].
    unfold bind. destruct (post_message _ _ _ _ _ _) as [st' [u|e]]; [apply IH|done].
Qed.

Lemma input_after_exit_is_ignored_witness :
  main_loop calm_world demo_agent demo_thread
    (["total sales?"] ++ "exit" :: ["by region"; "exit"]) initial_state =
  main_loop calm_world demo_agent demo_thread
    (["total sales?"] ++ "exit" :: []) initial_state.
Proof. apply input_after_exit_is_ignored. reflexivity. Defined.

(** X12. An exception of a turn that is not an [Exception] (an
    interrupt, a cancellation) is not logged: it ends the loop without a
    further prompt, and leaves [main] after [cleanup] has run. *)
Theorem interrupt_ends_the_loop w agent thread content rest st st1 e :
  post_message_body w (thread_id thread) content agent thread
    (extend [EPrint newline; EInput (input_prompt w)] st) = (st1, Raise e) ->
  isinstance e Exception = false ->
  is_exit content = false ->
  content <> "" ->
  main_loop w agent thread (content :: rest) st = (st1, Raise e) /\
  try_finally (main_loop w agent thread (content :: rest)) (cleanup w agent thread) st =
    (fst (cleanup w agent thread st1),
     match snd (cleanup w agent thread st1) with
     | Ok _ => Raise e
     | Raise e' => Raise e'
     end).
Proof.
  intros Hbody Hclass Hexit Hcontent.
  assert (Hloop : main_loop w agent thread (content :: rest) st = (st1, Raise e)).
  { rewrite main_loop_cons. unfold is_exit in Hexit. rewrite Hexit.
    destruct (str_falsy content) eqn:Hfalsy.
    - by apply str_falsy_empty in Hfalsy.
    - apply bind_raise. unfold post_message, try_except.
      by rewrite Hbody, Hclass. }
  split; [done|]. unfold try_finally. rewrite Hloop.
  by destruct (cleanup w agent thread st1) as [st2 [u|e']].
Qed.

Lemma interrupt_ends_the_loop_witness :
  main_loop (demo_world true demo_template demo_schema (Ok tt) (Raise interrupt)
               (Ok tt) (Ok tt))
    demo_agent demo_thread ["total sales?"; "exit"] initial_state =
  (extend [EPrint newline; EInput "Enter your query (type exit to finish): ";
           EMessagesCreate "thread_1" "user" "total sales?";
           ERunsStream "thread_1" "asst_1"; EUntilDone] initial_state,
   Raise interrupt).
Proof.
  apply (interrupt_ends_the_loop
           (demo_world true demo_template demo_schema (Ok tt) (Raise interrupt)
              (Ok tt) (Ok tt))
           demo_agent demo_thread "total sales?" ["exit"] initial_state);
    [reflexivity|reflexivity|reflexivity|discriminate].
Defined.

(** What [initialize] returns came from the two creation calls. *)
Lemma initialize_returns w cfg agent thread :
  returns (initialize w cfg) (agent, thread) ->
  threads_create w = Ok thread /\ exists kw, create_agent w kw = Ok agent.
Proof.
  intros Hret. unfold initialize in Hret.
  repeat (apply returns_bind in Hret as (? & _ & Hret)).
  apply returns_try_except in Hret as [Hret|[e Hret]].
  - unfold initialize_body in Hret.
    destruct (negb (is_file w (instructions_path w)));
      [by apply returns_raise in Hret|].
    apply returns_bind in Hret as (c & _ & Hret).
    destruct (negb c); [by apply returns_raise in Hret|].
    apply returns_bind in Hret as (template & _ & Hret).
    apply returns_bind in Hret as (? & _ & Hret).
    apply returns_bind in Hret as (? & _ & Hret).
    apply returns_bind in Hret as (ts & _ & Hret).
    apply returns_bind in Hret as (agent' & Hagent & Hret).
    apply returns_call in Hagent as [_ Hagent].
    do 4 (apply returns_bind in Hret as (? & _ & Hret)).
    apply returns_bind in Hret as (thread' & Hthread & Hret).
    apply returns_call in Hthread as [_ Hthread].
    apply returns_bind in Hret as (? & _ & Hret).
    apply returns_ret in Hret. injection Hret as -> ->. eauto.
  - unfold initialize_except in Hret.
    repeat (apply returns_bind in Hret as (? & _ & Hret)).
    by apply returns_raise in Hret.
Qed.

Lemma main_loop_turn_calls w agent thread stdin :
  threads_create w = Ok thread ->
  (exists kw, create_agent w kw = Ok agent) ->
  emits (turn_call w) (main_loop w agent thread stdin).
Proof.
  intros Hthread Hagent. destruct thread as [tid]. simpl in *.
  induction stdin as [|prompt rest IH]; simpl.
  - repeat emits_step; exact I.
  - apply emits_bind; [by apply emits_emit|]. intros _ _.
    apply emits_bind; [by apply emits_emit|]. intros _ _.
    destruct (String.eqb (str_lower prompt) "exit") eqn:Hexit; [apply emits_ret|].
    destruct (str_falsy prompt) eqn:Hfalsy; [done|].
    apply emits_bind; [|done].
    unfold post_message, post_message_body.
    repeat emits_step; try exact I; simpl.
    + repeat split; [done| |done]. intros ->. discriminate.
    + destruct Hagent as (kw & Hkw). split; [done|]. by exists kw, agent.
Qed.

(** X11. Every message is posted to the thread that was created at
    startup, with the role "user", and is neither empty nor an exit line;
    every run is streamed on that thread for the agent created at
    startup. *)
Theorem turns_address_startup_objects w cfg stdin st evs :
  trace (fst (main w cfg stdin st)) = trace st ++ evs ->
  Forall (turn_call w) evs.
Proof.
  apply emits_events. unfold main.
  apply emits_bind.
  - unfold main_except, initialize, initialize_except, add_agent_tools,
      initialize_body.
    repeat emits_step; exact I.
  - intros started Hret.
    apply returns_try_except in Hret as [Hret|[e Hret]].
    + apply returns_bind in Hret as ([agent thread] & Hinit & Hret).
      apply returns_ret in Hret as ->.
      apply initialize_returns in Hinit as [Hthread Hagent].
      apply emits_try_finally;
        [exact (main_loop_turn_calls w agent thread stdin Hthread Hagent)|].
      unfold cleanup, delete_thread, delete_agent.
      repeat emits_step; exact I.
    + unfold main_except in Hret.
      repeat (apply returns_bind in Hret as (? & _ & Hret)).
      apply returns_ret in Hret as ->. apply emits_ret.
Qed.

Lemma turns_address_startup_objects_witness :
  Forall (turn_call calm_world)
    (trace (fst (main calm_world demo_config ["total sales?"; "exit"] initial_state))).
Proof.
  by apply (turns_address_startup_objects calm_world demo_config
              ["total sales?"; "exit"] initial_state).
Defined.

(** ** Tear-down *)

(** X13. After two deletions that returned or raised [AttributeError],
    [cleanup] closes the database and then the client; when closing the
    database fails the client is not closed. *)
Theorem cleanup_closes_after_tolerated_deletions w agent thread st :
  tolerated (threads_delete w (trace st) (thread_id thread)) = true ->
  tolerated (agents_delete w (trace st ++ [EThreadsDelete (thread_id thread)])
               (agent_id agent)) = true ->
  cleanup w agent thread st =
    match db_close w (trace st ++ [EThreadsDelete (thread_id thread);
                                   EAgentsDelete (agent_id agent)]) with
    | Ok _ =>
        (extend [EThreadsDelete (thread_id thread); EAgentsDelete (agent_id agent);
                 EDbClose; EClientClose] st,
         client_close w (trace st ++ [EThreadsDelete (thread_id thread);
                                      EAgentsDelete (agent_id agent); EDbClose]))
    | Raise e =>
        (extend [EThreadsDelete (thread_id thread); EAgentsDelete (agent_id agent);
                 EDbClose] st,
         Raise e)
    end.
Proof.
  intros Hthread Hagent. unfold cleanup.
  assert (Hstep1 : delete_thread w thread st =
            (record (EThreadsDelete (thread_id thread)) st, Ok tt)).
  { rewrite delete_thread_run. unfold tolerated in Hthread.
    destruct (threads_delete _ _ _) as [[]|e]; [done|]. by rewrite Hthread. }
  rewrite (bind_ok _ _ _ _ _ Hstep1).
  assert (Hstep2 : delete_agent w agent (record (EThreadsDelete (thread_id thread)) st) =
            (extend [EThreadsDelete (thread_id thread);
                     EAgentsDelete (agent_id agent)] st, Ok tt)).
  { rewrite delete_agent_run. unfold tolerated in Hagent. simpl.
    rewrite !record_extend, extend_extend.
    destruct (agents_delete _ _ _) as [[]|e]; [done|]. by rewrite Hagent. }
  rewrite (bind_ok _ _ _ _ _ Hstep2).
  unfold bind, call. simpl. rewrite <-!app_assoc. simpl.
  destruct (db_close _ _) as [u|e]; unfold extend, record; simpl;
    by rewrite <-!app_assoc.
Qed.

Lemma cleanup_closes_after_tolerated_deletions_witness :
  cleanup (demo_world true demo_template demo_schema (Ok tt) (Ok tt)
             (Raise no_delete) (Raise no_delete))
    demo_agent demo_thread initial_state =
  (extend [EThreadsDelete "thread_1"; EAgentsDelete "asst_1"; EDbClose; EClientClose]
     initial_state,
   Ok tt).
Proof.
  by rewrite (cleanup_closes_after_tolerated_deletions
                (demo_world true demo_template demo_schema (Ok tt) (Ok tt)
                   (Raise no_delete) (Raise no_delete))
                demo_agent demo_thread initial_state).
Defined.

(** ** The shared toolset *)

Section KeepsTools.
Context {A : Type}.

Lemma keeps_tools_ret (a : A) : keeps_tools (ret a).
Proof. done. Qed.

Lemma keeps_tools_raise (e : exn) : keeps_tools (@raise A e).
Proof. done. Qed.

Lemma keeps_tools_call ev (answer : list event -> outcome A) :
  keeps_tools (call ev answer).
Proof. done. Qed.

Lemma keeps_tools_try_except cls (body : M A) handler :
  keeps_tools body -> (forall e, keeps_tools (handler e)) ->
  keeps_tools (try_except cls body handler).
Proof.
  intros Hb Hh st. unfold try_except.
  destruct (Hb st) as [Ht Hv].
  destruct (body st) as [st' [a|e]]; simpl in *; [done|].
  destruct (isinstance e cls); [|done].
  destruct (Hh e st') as [Ht' Hv']. by rewrite Ht', Hv'.
Qed.

Lemma keeps_tools_try_finally (body : M A) fin :
  keeps_tools body -> keeps_tools fin -> keeps_tools (try_finally body fin).
Proof.
  intros Hb Hf st. unfold try_finally.
  destruct (Hb st) as [Ht Hv].
  destruct (body st) as [st' r]; simpl in *.
  destruct (Hf st') as [Ht' Hv'].
  destruct (fin st') as [st'' [u|e]]; simpl in *; by rewrite Ht', Hv'.
Qed.
End KeepsTools.

Lemma keeps_tools_emit ev : keeps_tools (emit ev).
Proof. done. Qed.

Lemma keeps_tools_bind {A B} (m : M A) (k : A -> M B) :
  keeps_tools m -> (forall a, keeps_tools (k a)) -> keeps_tools (bind m k).
Proof.
  intros Hm Hk st. unfold bind.
  destruct (Hm st) as [Ht Hv].
  destruct (m st) as [st' [a|e]]; simpl in *; [|done].
  destruct (Hk a st') as [Ht' Hv']. by rewrite Ht', Hv'.
Qed.

Ltac keeps_step :=
  lazymatch goal with
  | |- keeps_tools (bind _ _) => apply keeps_tools_bind; [|intros ?]
  | |- keeps_tools (ret _) => apply keeps_tools_ret
  | |- keeps_tools (raise _) => apply keeps_tools_raise
  | |- keeps_tools (get _) => done
  | |- keeps_tools (set_conn _) => done
  | |- keeps_tools (emit _) => apply keeps_tools_emit
  | |- keeps_tools (print _) => apply keeps_tools_emit
  | |- keeps_tools (logger_error _) => apply keeps_tools_emit
  | |- keeps_tools (log_msg_purple _) => apply keeps_tools_emit
  | |- keeps_tools (call _ _) => apply keeps_tools_call
  | |- keeps_tools (try_except _ _ _) => apply keeps_tools_try_except; [|intros ?]
  | |- keeps_tools (try_finally _ _) => apply keeps_tools_try_finally
  | |- keeps_tools (if ?b then _ else _) => destruct b
  | |- keeps_tools (match ?x with _ => _ end) => destruct x
  end.

Lemma main_loop_keeps_tools w agent thread stdin :
  keeps_tools (main_loop w agent thread stdin).
Proof.
  induction stdin as [|prompt rest IH]; simpl.
  - repeat keeps_step.
  - unfold post_message, post_message_body. repeat keeps_step; exact IH.
Qed.

Lemma cleanup_keeps_tools w agent thread : keeps_tools (cleanup w agent thread).
Proof. unfold cleanup, delete_thread, delete_agent. repeat keeps_step. Qed.

(** After [add_agent_tools], [initialize] touches the toolset no more. *)
Lemma initialize_tools w cfg st :
  toolset (fst (initialize w cfg st)) = toolset (fst (add_agent_tools w st)) /\
  vector_store (fst (initialize w cfg st)) = vector_store (fst (add_agent_tools w st)).
Proof.
  unfold initialize.
  split; unfold bind at 1;
    (destruct (add_agent_tools w st) as [st' [[]|e]]; [|done]); simpl;
    match goal with
    | |- context [fst (?m st')] =>
        assert (keeps_tools m) as Hkeeps
          by (unfold initialize_except, initialize_body; repeat keeps_step)
    end;
    apply Hkeeps.
Qed.

Lemma main_tools w cfg stdin st :
  toolset (fst (main w cfg stdin st)) = toolset (fst (initialize w cfg st)) /\
  vector_store (fst (main w cfg stdin st)) = vector_store (fst (initialize w cfg st)).
Proof.
  unfold main, bind, try_except.
  destruct (initialize w cfg st) as [st1 [[agent thread]|e]]; simpl.
  - apply (keeps_tools_try_finally (main_loop w agent thread stdin)
             (cleanup w agent thread));
      [apply main_loop_keeps_tools|apply cleanup_keeps_tools].
  - by destruct (isinstance e Exception).
Qed.

(** X14. The shared toolset and the vector-store reference are settled
    by [add_agent_tools] alone: whatever happens later in [initialize],
    in the conversation and in [cleanup], a run in which the vector store
    was built ends with the three tools appended in the order function
    tool, code interpreter, file search, and with that store referenced. *)
Theorem tools_fixed_at_startup w cfg stdin st vs :
  create_vector_store w = Ok vs ->
  toolset (fst (main w cfg stdin st)) =
    toolset st ++ [functions; CodeInterpreterTool; FileSearchTool [vs_id vs]] /\
  vector_store (fst (main w cfg stdin st)) = Some vs.
Proof.
  intros Hvs.
  destruct (main_tools w cfg stdin st) as [-> ->].
  destruct (initialize_tools w cfg st) as [-> ->].
  unfold add_agent_tools, bind, toolset_add, call, set_vector_store, print, emit.
  simpl. rewrite Hvs. simpl. by rewrite <-!app_assoc.
Qed.

Lemma tools_fixed_at_startup_witness :
  toolset (fst (main (demo_world true demo_template demo_schema (Raise service_error)
                       (Ok tt) (Raise service_error) (Ok tt))
                  demo_config ["total sales?"; "exit"] initial_state)) =
    [functions; CodeInterpreterTool; FileSearchTool ["vs_1"]] /\
  vector_store (fst (main (demo_world true demo_template demo_schema
                             (Raise service_error) (Ok tt) (Raise service_error) (Ok tt))
                        demo_config ["total sales?"; "exit"] initial_state)) =
    Some demo_store.
Proof.
  apply (tools_fixed_at_startup
           (demo_world true demo_template demo_schema (Raise service_error)
              (Ok tt) (Raise service_error) (Ok tt))
           demo_config ["total sales?"; "exit"] initial_state demo_store).
  reflexivity.
Defined.

(** ** The script *)

(** X15. A startup that fails with an [Exception] does not fail the
    script: with PROJECT_ENDPOINT set, the run logs the failure, prints
    "Program finished." and ends normally. *)
Theorem failed_startup_still_finishes w stdin endpoint st1 e :
  environ w !! "PROJECT_ENDPOINT" = Some endpoint ->
  initialize w
    {| API_DEPLOYMENT_NAME := environ w !! "MODEL_DEPLOYMENT_NAME";
       PROJECT_ENDPOINT := endpoint |}
    (record (EPrint "Starting async program...") initial_state) = (st1, Raise e) ->
  isinstance e Exception = true ->
  run_program w stdin =
  (extend
     [ ELogError ("Initialization failed: " +:+ py_str e);
       EPrint "Initialization failed. Check logs and configuration, then try again.";
       EPrint "Program finished." ]
     st1,
   Ok tt).
Proof.
  intros Hendpoint Hinit Hclass.
  unfold run_program, module_init, getenv. rewrite Hendpoint.
  unfold bind at 1, print at 1, emit at 1.
  unfold bind at 1, main, bind at 1, try_except, bind at 1.
  rewrite Hinit, Hclass.
  unfold main_except, bind, logger_error, print, emit, ret. simpl.
  by rewrite !record_extend, !extend_extend.
Qed.

Lemma failed_startup_still_finishes_witness :
  snd (run_program
         (demo_world false demo_template demo_schema (Ok tt) (Ok tt) (Ok tt) (Ok tt))
         ["total sales?"]) = Ok tt.
Proof.
  set (w := demo_world false demo_template demo_schema (Ok tt) (Ok tt) (Ok tt) (Ok tt)).
  by rewrite (failed_startup_still_finishes w ["total sales?"]
                "https://contoso.example/api/projects/p1"
                (fst (initialize w demo_config
                        (record (EPrint "Starting async program...") initial_state)))
                (file_not_found w)).
Defined.

(** X17. The configuration read at load time depends on PROJECT_ENDPOINT
    and MODEL_DEPLOYMENT_NAME only: setting PROJECT_ENDPOINT makes the
    load succeed with that endpoint, and any other variable changes
    nothing. *)
Theorem configuration_reads_two_variables (env : gmap string string) :
  (forall endpoint,
     module_init (<["PROJECT_ENDPOINT" := endpoint]> env) =
     Ok {| API_DEPLOYMENT_NAME := env !! "MODEL_DEPLOYMENT_NAME";
           PROJECT_ENDPOINT := endpoint |}) /\
  (forall name value,
     name <> "PROJECT_ENDPOINT" -> name <> "MODEL_DEPLOYMENT_NAME" ->
     module_init (<[name := value]> env) = module_init env /\
     module_init (delete name env) = module_init env).
Proof.
  split.
  - intros endpoint. unfold module_init, getenv.
    by rewrite lookup_insert_eq, lookup_insert_ne.
  - intros name value Hendpoint Hmodel. unfold module_init, getenv.
    by rewrite !lookup_insert_ne, !lookup_delete_ne.
Qed.

Lemma configuration_reads_two_variables_witness :
  module_init (<["ENVIRONMENT" := "container"]> demo_environ) = Ok demo_config.
Proof.
  destruct (configuration_reads_two_variables demo_environ) as [_ Hother].
  destruct (Hother "ENVIRONMENT" "container") as [Hinsert _]; [done|done|].
  rewrite Hinsert. reflexivity.
Defined.
